(** * framework/infrastructure/k8s.py: predicates, resource getters and the
    port-forwarding subprocess of the xDS Kubernetes test driver.

    Shallow embedding of [k8s.py].  Python exceptions are values of [exn];
    a call that can raise returns a [result].  The Kubernetes client and the
    child process started by [subprocess.Popen] are outside the file: the
    client is a record of functions, the child a scripted [program].

    What is left out: the 50 ms sleep of the read loop and all wall-clock
    time (the 5 s of [communicate] is the flag [prog_dies_when_killed]);
    failures of [Popen] itself and of the reads; exceptions that are not
    subclasses of [Exception] (a keyboard interrupt passes the [except]
    clause of connect() untouched); text beyond code point 255. *)

From Stdlib Require Import ZArith String Ascii List Bool Lia DecimalString.
From Stdlib Require Import DecimalPos.
From stdpp Require Import base option list gmap strings.
Import ListNotations.

Local Open Scope Z_scope.
Local Open Scope string_scope.

(** ** Exceptions and results *)

(** What a [PortForwardingError] message interpolates: the message text is
    fixed by these values (the f-strings at lines 138-140 and 148-156). *)
Inductive pf_detail : Type :=
| KubectlExited (return_code : Z) (errors : list string)
| UnexpectedOutput (output : string).

(** The subclasses of [Exception] that the file raises or lets through. *)
Inductive exn : Type :=
| ApiException (status : option Z)       (* kubernetes.client.ApiException *)
| ConnectionError                        (* any non-API failure of the client *)
| AttributeError                         (* attribute read on None *)
| TypeError                              (* [key in None] *)
| PortForwardingError (d : pf_detail)
| TimeoutExpired.                        (* subprocess.TimeoutExpired *)

Inductive result (A : Type) : Type :=
| Ok (a : A)
| Raise (e : exn).
Arguments Ok {A} a.
Arguments Raise {A} e.

Definition bind {A B} (r : result A) (k : A -> result B) : result B :=
  match r with
  | Ok a => k a
  | Raise e => Raise e
  end.

Notation "x <- r ;; k" := (bind r (fun x => k))
  (at level 100, r at next level, right associativity).

(** Attribute access [o.attr] when [o] may be None. *)
Definition getattr {A B} (o : option A) (attr : A -> B) : result B :=
  match o with
  | Some a => Ok (attr a)
  | None => Raise AttributeError
  end.

(** ** Resource snapshots (the fields the file reads) *)

Record V1ObjectMeta : Type := {
  meta_name : option string;
  annotations : option (gmap string string)
}.

Record V1Service : Type := { svc_metadata : option V1ObjectMeta }.

Record V1DeploymentStatus : Type := { available_replicas : option Z }.

Record V1Deployment : Type := {
  depl_metadata : option V1ObjectMeta;
  depl_status : option V1DeploymentStatus
}.

Record V1PodStatus : Type := { phase : option string }.

Record V1Pod : Type := {
  pod_metadata : option V1ObjectMeta;
  pod_status : option V1PodStatus
}.

Record V1ServiceAccount : Type := { sa_metadata : option V1ObjectMeta }.

Record V1Namespace : Type := { ns_metadata : option V1ObjectMeta }.

(** A value a getter can hand to a predicate: None or a typed snapshot. *)
Inductive k8s_object : Type :=
| PyNone
| AService (s : V1Service)
| AServiceAccount (a : V1ServiceAccount)
| ANamespace (n : V1Namespace)
| ADeployment (d : V1Deployment)
| APod (p : V1Pod).

(** ** simple_resource_get and the getters (lines 43-54, 197-203, 225-227,
       293-295, 370-371) *)

Module Getters.

(** [wrap_not_found_return_none]: only an [ApiException] whose status is 404
    becomes None; everything else is re-raised. *)
Definition simple_resource_get {A} (func : A -> result k8s_object)
  : A -> result k8s_object :=
  fun args =>
    match func args with
    | Ok v => Ok v
    | Raise (ApiException status) =>
        match status with
        | Some 404 => Ok PyNone
        | _ => Raise (ApiException status)
        end
    | Raise e => Raise e
    end.

Record CoreV1Api : Type := {
  read_namespaced_service : string -> string -> result k8s_object;
  read_namespaced_service_account : string -> string -> result k8s_object;
  read_namespace : string -> result k8s_object;
  read_namespaced_pod : string -> string -> result k8s_object
}.

Record AppsV1Api : Type := {
  read_namespaced_deployment : string -> string -> result k8s_object
}.

Record KubernetesApiManager : Type := {
  api_context : string;
  apps : AppsV1Api;
  core : CoreV1Api
}.

Record KubernetesNamespace : Type := {
  name : string;
  api : KubernetesApiManager
}.

Definition get_service (self : KubernetesNamespace) : string -> result k8s_object :=
  simple_resource_get
    (fun name' => read_namespaced_service (core (api self)) name' (name self)).

Definition get_service_account (self : KubernetesNamespace)
  : string -> result k8s_object :=
  simple_resource_get
    (fun name' =>
       read_namespaced_service_account (core (api self)) name' (name self)).

Definition get (self : KubernetesNamespace) : result k8s_object :=
  simple_resource_get
    (fun _ : unit => read_namespace (core (api self)) (name self)) tt.

Definition get_deployment (self : KubernetesNamespace)
  : string -> result k8s_object :=
  simple_resource_get
    (fun name' => read_namespaced_deployment (apps (api self)) name' (name self)).

(** Not decorated in the source. *)
Definition get_pod (self : KubernetesNamespace) (name' : string)
  : result k8s_object :=
  read_namespaced_pod (core (api self)) name' (name self).

End Getters.

(** ** Predicates (lines 440-455) *)

Module Predicates.

Definition NEG_STATUS_META : string := "cloud.google.com/neg-status".

(** [key in d] for a dict that may be None. *)
Definition py_in (key : string) (d : option (gmap string string)) : result bool :=
  match d with
  | Some m => Ok (bool_decide (is_Some (m !! key)))
  | None => Raise TypeError
  end.

Definition _check_service_neg_annotation (service : k8s_object) : result bool :=
  match service with
  | AService s =>
      a <- getattr (svc_metadata s) annotations ;;
      py_in NEG_STATUS_META a
  | _ => Ok false
  end.

Definition _pod_started (pod : k8s_object) : result bool :=
  match pod with
  | APod p =>
      ph <- getattr (pod_status p) phase ;;
      Ok (negb (bool_decide (ph = Some "Pending") || bool_decide (ph = Some "Unknown")))
  | _ => Ok false
  end.

Definition _replicas_available (deployment : k8s_object) (count : Z) : result bool :=
  match deployment with
  | ADeployment d =>
      r <- getattr (depl_status d) available_replicas ;;
      match r with
      | None => Ok false
      | Some n => Ok (Z.leb count n)
      end
  | _ => Ok false
  end.

End Predicates.

(** ** Text helpers: the str methods, f-string pieces and the small part of
       the [re] syntax that the file relies on *)

Module Text.

(** Characters are code points below 256, one per [ascii].  [str.isspace] on
    that range: TAB..CR, FS..US, SPACE, NEL (0x85) and NBSP (0xa0). *)
Definition isspace (c : ascii) : bool :=
  let n := nat_of_ascii c in
  ((9 <=? n) && (n <=? 13) || (28 <=? n) && (n <=? 32) || (n =? 133) || (n =? 160))%nat.

Fixpoint lstrip (s : string) : string :=
  match s with
  | EmptyString => EmptyString
  | String c s' => if isspace c then lstrip s' else s
  end.

Definition reversed (s : string) : string :=
  string_of_list_ascii (rev (list_ascii_of_string s)).

Definition rstrip (s : string) : string := reversed (lstrip (reversed s)).

(** [s.strip()] *)
Definition strip (s : string) : string := rstrip (lstrip s).

(** [str(n)] for an int, as an f-string prints it. *)
Definition str (n : Z) : string := NilZero.string_of_int (Z.to_int n).

Definition str_nat (n : nat) : string := NilZero.string_of_uint (Nat.to_uint n).

Definition isdigit (c : ascii) : bool :=
  let n := nat_of_ascii c in ((48 <=? n) && (n <=? 57))%nat.

(** Only ASCII digits (the characters [[0-9]] stands for). *)
Fixpoint all_digits (s : string) : bool :=
  match s with
  | EmptyString => true
  | String c s' => isdigit c && all_digits s'
  end.

(** [int(s)] for a string of ASCII digits. *)
Definition int (s : string) : Z :=
  fold_left (fun acc c => 10 * acc + Z.of_nat (nat_of_ascii c - 48))
            (list_ascii_of_string s) 0.

Fixpoint take (k : nat) (s : string) : string :=
  match k, s with
  | S k', String c s' => String c (take k' s')
  | _, _ => EmptyString
  end.

Fixpoint drop (k : nat) (s : string) : string :=
  match k, s with
  | S k', String _ s' => drop k' s'
  | _, _ => s
  end.

(** *** Regular expressions

    The pattern at line 125 is an f-string: the address and the port are
    pasted into the pattern text and read as regex syntax.  The fragment
    kept here has literal characters, [.] and the one group [([0-9]+)]. *)
Inductive re_atom : Type :=
| Lit (c : ascii)
| AnyChar          (* [.]: any character but a newline *)
| DigitsGroup.     (* [([0-9]+)], greedy *)

Definition is_meta (c : ascii) : bool :=
  existsb (Ascii.eqb c) (list_ascii_of_string "\^$.|?*+()[]{}").

(** Pattern text to atoms; None when the text uses syntax outside the
    fragment (any metacharacter other than [.]). *)
Fixpoint re_of_text (s : string) : option (list re_atom) :=
  match s with
  | EmptyString => Some []
  | String c s' =>
      match re_of_text s' with
      | None => None
      | Some r =>
          if Ascii.eqb c "." then Some (AnyChar :: r)
          else if is_meta c then None
          else Some (Lit c :: r)
      end
  end.

Fixpoint digit_run (s : string) : nat :=
  match s with
  | String c s' => if isdigit c then S (digit_run s') else O
  | EmptyString => O
  end.

(** Backtracking of a greedy repetition: lengths k, k-1, .., 1. *)
Fixpoint longest_first (k : nat) (try : nat -> option string) : option string :=
  match k with
  | O => None
  | S k' =>
      match try k with
      | Some g => Some g
      | None => longest_first k' try
      end
  end.

(** Match the atoms at the start of [s]; the result is the text of group 1
    (empty when the atoms have no group). *)
Fixpoint match_here (r : list re_atom) (s : string) : option string :=
  match r with
  | [] => Some EmptyString
  | Lit c :: r' =>
      match s with
      | String c' s' => if Ascii.eqb c c' then match_here r' s' else None
      | EmptyString => None
      end
  | AnyChar :: r' =>
      match s with
      | String c' s' => if Ascii.eqb c' "010" then None else match_here r' s'
      | EmptyString => None
      end
  | DigitsGroup :: r' =>
      longest_first (digit_run s)
        (fun k => match match_here r' (drop k s) with
                  | Some _ => Some (take k s)
                  | None => None
                  end)
  end.

(** [pattern.search(s)]: the leftmost position where the atoms match. *)
Fixpoint re_search (r : list re_atom) (s : string) : option string :=
  match match_here r s with
  | Some g => Some g
  | None =>
      match s with
      | EmptyString => None
      | String _ s' => re_search r s'
      end
  end.

End Text.

(** ** PortForwarder (lines 82-174) *)

Module PortForward.
Import Text.

(** What the command started by [subprocess.Popen] does, as seen through the
    calls the file makes on it. *)
Record program : Type := {
  prog_pid : nat;
  (* the raw text of each successive [stdout.readline()], paired with what
     [poll()] reports if it is called right after that read *)
  prog_lines : list (string * option Z);
  (* once the lines are used up: [Some rc] when the child has closed its
     output and exited with [rc], [None] when it stays up and silent *)
  prog_exit : option Z;
  (* whether the child is gone within the 5 s that [communicate] waits
     after [kill()] *)
  prog_dies_when_killed : bool
}.

(** The [subprocess.Popen] object. *)
Record Popen : Type := {
  pid : nat;
  args : list string;
  stdout : list (string * option Z);
  exit_at_eof : option Z;
  dies_when_killed : bool;
  returncode : option Z        (* None until an exit has been observed *)
}.

Definition set_stdout (l : list (string * option Z)) (p : Popen) : Popen :=
  {| pid := pid p; args := args p; stdout := l; exit_at_eof := exit_at_eof p;
     dies_when_killed := dies_when_killed p; returncode := returncode p |}.

Definition set_returncode (rc : option Z) (p : Popen) : Popen :=
  {| pid := pid p; args := args p; stdout := stdout p;
     exit_at_eof := exit_at_eof p; dies_when_killed := dies_when_killed p;
     returncode := rc |}.

Record PortForwarder : Type := {
  context : string;
  namespace : string;
  destination : string;
  remote_port : Z;
  local_address : string;
  local_port : option Z;
  subprocess : option Popen
}.

Definition set_local_port (lp : option Z) (s : PortForwarder) : PortForwarder :=
  {| context := context s; namespace := namespace s;
     destination := destination s; remote_port := remote_port s;
     local_address := local_address s; local_port := lp;
     subprocess := subprocess s |}.

Definition set_subprocess (p : option Popen) (s : PortForwarder) : PortForwarder :=
  {| context := context s; namespace := namespace s;
     destination := destination s; remote_port := remote_port s;
     local_address := local_address s; local_port := local_port s;
     subprocess := p |}.

Inductive event : Type :=
| Spawn (pid : nat) (cmd : list string)   (* subprocess.Popen(cmd, ...) *)
| Kill (pid : nat)                        (* a call of [.kill()] *)
| LogInfo (msg : string)
| LogDebug (msg : string).

(** The handle, the processes it started and no longer references, and what
    it has done so far (oldest event first). *)
Record state : Type := {
  self : PortForwarder;
  untracked : list Popen;
  events : list event
}.

Definition emit (es : list event) (st : state) : state :=
  {| self := self st; untracked := untracked st; events := (events st ++ es)%list |}.

Definition with_self (s : PortForwarder) (st : state) : state :=
  {| self := s; untracked := untracked st; events := events st |}.

Definition release (p : Popen) (st : state) : state :=
  {| self := self st; untracked := p :: untracked st; events := events st |}.

(** How a method call ends. *)
Inductive outcome : Type :=
| Returns (st : state)
| Raises (e : exn) (st : state)
| Blocks                  (* the call never returns *)
| Unmodelled.             (* the address is regex syntax outside [re_of_text] *)

Definition PORT_FORWARD_LOCAL_ADDRESS : string := "127.0.0.1".

(** Truth value of [self.local_port]: None and 0 are false. *)
Definition truthy (lp : option Z) : bool :=
  match lp with
  | Some n => negb (Z.eqb n 0)
  | None => false
  end.

(** [local_address or self.PORT_FORWARD_LOCAL_ADDRESS] *)
Definition or_default (a : option string) : string :=
  match a with
  | Some s => if String.eqb s "" then PORT_FORWARD_LOCAL_ADDRESS else s
  | None => PORT_FORWARD_LOCAL_ADDRESS
  end.

(** [__init__] *)
Definition __init__ (context namespace destination : string) (remote_port : Z)
    (local_port : option Z) (local_address : option string) : PortForwarder :=
  {| context := context; namespace := namespace; destination := destination;
     remote_port := remote_port;
     local_address := or_default local_address;
     local_port := local_port;
     subprocess := None |}.

Definition fresh (s : PortForwarder) : state :=
  {| self := s; untracked := []; events := [] |}.

(** [f"{self.local_port}"] *)
Definition fmt_port (lp : option Z) : string :=
  match lp with
  | Some n => str n
  | None => "None"
  end.

(** Lines 105-108. *)
Definition port_mapping (s : PortForwarder) : string :=
  if truthy (local_port s)
  then fmt_port (local_port s) ++ ":" ++ str (remote_port s)
  else ":" ++ str (remote_port s).

(** Lines 109-113. *)
Definition cmd (s : PortForwarder) : list string :=
  [ "kubectl"; "--context"; context s; "--namespace"; namespace s;
    "port-forward"; "--address"; local_address s; destination s;
    port_mapping s ].

(** Lines 120-122. *)
Definition local_port_expected (s : PortForwarder) : string :=
  "Forwarding from " ++ local_address s ++ ":" ++ fmt_port (local_port s)
    ++ " -> " ++ str (remote_port s).

(** Lines 124-126. *)
Definition local_port_re (s : PortForwarder) : option (list re_atom) :=
  match re_of_text ("Forwarding from " ++ local_address s ++ ":"),
        re_of_text (" -> " ++ str (remote_port s)) with
  | Some before, Some after => Some (before ++ DigitsGroup :: after)%list
  | _, _ => None
  end.

(** Lines 145-158: check one non-empty line; the handle comes back with the
    port that was picked when none was asked for. *)
Definition validate (re : list re_atom) (s : PortForwarder) (output : string)
  : result PortForwarder :=
  if truthy (local_port s) then
    if negb (String.eqb output (local_port_expected s))
    then Raise (PortForwardingError (UnexpectedOutput output))
    else Ok s
  else
    match re_search re output with
    | None => Raise (PortForwardingError (UnexpectedOutput output))
    | Some group1 => Ok (set_local_port (Some (int group1)) s)
    end.

(** How the body of the [try] (lines 128-161) ends. *)
Inductive loop_end : Type :=
| Break (output : string) (s : PortForwarder) (p : Popen)
| LoopRaises (e : exn) (p : Popen)
| Forever.

(** The [while True] loop, by recursion on the reads still to come.  [p] is
    the process object, [pending] its unread lines.  A read is stripped;
    an empty one polls the process; any other one is checked and ends the
    loop either way. *)
Fixpoint handshake_loop (re : list re_atom) (s : PortForwarder) (p : Popen)
    (pending : list (string * option Z)) : loop_end :=
  match pending with
  | [] =>
      (* readline() gives '' at end of output, or never returns *)
      match exit_at_eof p with
      | Some return_code =>
          LoopRaises (PortForwardingError (KubectlExited return_code []))
                     (set_returncode (Some return_code) (set_stdout [] p))
      | None => Forever
      end
  | (raw, polled) :: rest =>
      let output := strip raw in
      if String.eqb output "" then
        match polled with
        | Some return_code =>
            let errors := map fst rest in        (* stdout.readlines() *)
            LoopRaises (PortForwardingError (KubectlExited return_code errors))
                       (set_returncode (Some return_code) (set_stdout [] p))
        | None => handshake_loop re s p rest     (* continue *)
        end
      else
        match validate re s output with
        | Raise e => LoopRaises e (set_stdout rest p)
        | Ok s' => Break output s' (set_stdout rest p)
        end
  end.

(** [Popen.kill()]: nothing to do for a process whose exit was observed;
    otherwise the signal ends the process unless it outlasts the grace
    period.  The code recorded is that of the signal; a child that had
    already exited on its own would report its own code instead, so the
    properties below speak of [running], never of the code. *)
Definition kill (p : Popen) : Popen :=
  match returncode p with
  | Some _ => p
  | None => if dies_when_killed p then set_returncode (Some (-9)) p else p
  end.

(** [Popen.communicate(timeout=5)]: the rest of the output once the process
    is gone, [TimeoutExpired] while it is still there. *)
Definition communicate (p : Popen) : result (string * Popen) :=
  match returncode p with
  | Some _ => Ok (String.concat "" (map fst (stdout p)), set_stdout [] p)
  | None => Raise TimeoutExpired
  end.

(** Lines 166-174. *)
Definition close (st : state) : outcome :=
  match subprocess (self st) with
  | None => Returns st
  | Some p =>
      let st := emit [LogInfo ("Shutting down port forwarding, pid "
                               ++ str_nat (pid p))] st in
      let p := kill p in
      let st := emit [Kill (pid p)] (with_self (set_subprocess (Some p) (self st)) st) in
      match communicate p with
      | Raise e => Raises e st
      | Ok (stdout', p) =>
          let st := emit [LogInfo "Port forwarding stopped";
                          LogDebug ("Port forwarding remaining stdout: " ++ stdout')] st in
          Returns (release p (with_self (set_subprocess None (self st)) st))
      end
  end.

(** The process object that [subprocess.Popen(cmd, ...)] hands back. *)
Definition start (cmd : list string) (child : program) : Popen :=
  {| pid := prog_pid child; args := cmd; stdout := prog_lines child;
     exit_at_eof := prog_exit child;
     dies_when_killed := prog_dies_when_killed child; returncode := None |}.

(** The processes out of the handle's reach once [self.subprocess] is
    assigned anew. *)
Definition released (st : state) : list Popen :=
  match subprocess (self st) with
  | Some old => old :: untracked st
  | None => untracked st
  end.

(** Line 114: the new process object replaces whatever was tracked. *)
Definition spawn (child : program) (st : state) : Popen * state :=
  let p := start (cmd (self st)) child in
  (p, {| self := set_subprocess (Some p) (self st);
         untracked := released st;
         events := (events st ++ [Spawn (pid p) (args p)])%list |}).

(** Lines 162-164: [except Exception: self.close(); raise]. *)
Definition on_exception (e : exn) (st : state) : outcome :=
  match close st with
  | Returns st' => Raises e st'
  | other => other
  end.

(** Lines 119-126: the pattern is compiled only when no port was asked
    for; the fixed-port branch never looks at it. *)
Definition compiled (s : PortForwarder) : option (list re_atom) :=
  if truthy (local_port s) then Some [] else local_port_re s.

(** Lines 104-164. *)
Definition connect (child : program) (st : state) : outcome :=
  let '(p, st) := spawn child st in
  match compiled (self st) with
  | None => Unmodelled
  | Some re =>
      match handshake_loop re (self st) p (stdout p) with
      | Break output s' p' =>
          Returns (emit [LogInfo output]
                        (with_self (set_subprocess (Some p') s') st))
      | LoopRaises e p' =>
          on_exception e (with_self (set_subprocess (Some p') (self st)) st)
      | Forever => Blocks
      end
  end.

(** The handle references a process. *)
Definition tracked (st : state) : bool :=
  match subprocess (self st) with Some _ => true | None => false end.

(** No exit of the process has been observed. *)
Definition running (p : Popen) : bool :=
  match returncode p with Some _ => false | None => true end.

(** Some process started through this handle, referenced or not, is still
    running. *)
Definition any_running (st : state) : bool :=
  existsb running (untracked st)
  || match subprocess (self st) with Some p => running p | None => false end.

(** Whether [communicate] finds the process gone after [kill()]. *)
Definition gone_after_kill (p : Popen) : bool :=
  match returncode p with
  | Some _ => true
  | None => dies_when_killed p
  end.

(** The same command with other output. *)
Definition with_lines (l : list (string * option Z)) (c : program) : program :=
  {| prog_pid := prog_pid c; prog_lines := l; prog_exit := prog_exit c;
     prog_dies_when_killed := prog_dies_when_killed c |}.

(** A read that strips to nothing while the child is still up. *)
Definition blank_alive (r : string * option Z) : bool :=
  String.eqb (strip (fst r)) "" && match snd r with None => true | Some _ => false end.

Definition map_outcome (f : state -> state) (o : outcome) : outcome :=
  match o with
  | Returns st => Returns (f st)
  | Raises e st => Raises e (f st)
  | Blocks => Blocks
  | Unmodelled => Unmodelled
  end.

(** The state inside the [try] once the command is started: handle [s]
    tracking the process object [p]. *)
Definition handshaking (child : program) (st : state) (s : PortForwarder)
    (p : Popen) : state :=
  {| self := set_subprocess (Some p) s;
     untracked := released st;
     events := (events st ++ [Spawn (prog_pid child) (cmd (self st))])%list |}.

Definition port_to (lp : option Z) (st : state) : state :=
  with_self (set_local_port lp (self st)) st.

(** Put [lp] where the handle has no port. *)
Definition default_port (lp : option Z) (st : state) : state :=
  match local_port (self st) with
  | None => with_self (set_local_port lp (self st)) st
  | Some _ => st
  end.

End PortForward.

(** ** Sample inputs used by the closed lemmas below *)

Module Samples.
Import Getters Predicates PortForward.

(** A cluster where every read answers 404 Not Found. *)
Definition not_found {A} : result A := Raise (ApiException (Some 404)).

Definition api_404 : KubernetesApiManager :=
  {| api_context := "gke_test";
     apps := {| read_namespaced_deployment := fun _ _ => not_found |};
     core := {| read_namespaced_service := fun _ _ => not_found;
                read_namespaced_service_account := fun _ _ => not_found;
                read_namespace := fun _ => not_found;
                read_namespaced_pod := fun _ _ => not_found |} |}.

Definition ns_404 : KubernetesNamespace := {| name := "psm"; api := api_404 |}.

Definition deployment_reporting (md : option V1ObjectMeta) (n : option Z)
  : k8s_object :=
  ADeployment {| depl_metadata := md;
                 depl_status := Some {| available_replicas := n |} |}.

Definition child (lines : list (string * option Z)) (exit : option Z)
    (dies : bool) : program :=
  {| prog_pid := 4242; prog_lines := lines; prog_exit := exit;
     prog_dies_when_killed := dies |}.

Definition fixed_port : PortForwarder :=
  __init__ "gke_test" "psm" "pod/psm-grpc-server" 8080 (Some 9000) None.

Definition any_port : PortForwarder :=
  __init__ "gke_test" "psm" "pod/psm-grpc-server" 8080 None None.

Definition newline : string := String "010" EmptyString.

(** A tracked process that outlasts the grace period after [kill()]. *)
Definition stubborn : Popen :=
  {| pid := 4242; args := cmd fixed_port; stdout := []; exit_at_eof := None;
     dies_when_killed := false; returncode := None |}.

Definition tracking (p : Popen) : state :=
  fresh (set_subprocess (Some p) fixed_port).

(** A tracked process that goes away when killed. *)
Definition mortal : Popen :=
  {| pid := 4242; args := cmd fixed_port; stdout := []; exit_at_eof := None;
     dies_when_killed := true; returncode := None |}.

Definition closed_once : state :=
  Eval vm_compute in
    match close (tracking mortal) with
    | Returns st' => st'
    | _ => tracking mortal
    end.

Definition closed_in_vain : state :=
  Eval vm_compute in
    match close (tracking stubborn) with
    | Raises _ st' => st'
    | _ => tracking stubborn
    end.

Definition garbage_line : string := "error: unable to listen on port" ++ newline.

(** A child that prints something else than the handshake. *)
Definition rejected_child : program := child [(garbage_line, None)] None true.

Definition rejected_state : state :=
  Eval vm_compute in
    match connect rejected_child (fresh fixed_port) with
    | Raises _ st' => st'
    | _ => fresh fixed_port
    end.

(** The same, and the child outlasts the grace period of close(). *)
Definition stubborn_child : program := child [(garbage_line, None)] None false.

Definition stuck_state : state :=
  Eval vm_compute in
    match connect stubborn_child (fresh fixed_port) with
    | Raises _ st' => st'
    | _ => fresh fixed_port
    end.

(** A child that behaves: what it prints is set with [with_lines]. *)
Definition forwarding : program := child [] None true.

Definition handshake_54321 : string :=
  "Forwarding from 127.0.0.1:54321 -> 8080" ++ newline.

Definition handshake_9000 : string :=
  "Forwarding from 127.0.0.1:9000 -> 8080" ++ newline.

Definition any_port_re : list Text.re_atom :=
  Eval vm_compute in
    match local_port_re any_port with
    | Some re => re
    | None => []
    end.

Definition ready_54321 : state :=
  Eval vm_compute in
    match connect (with_lines [(handshake_54321, None)] forwarding)
                  (fresh any_port) with
    | Returns st' => st'
    | _ => fresh any_port
    end.

Definition ready_9000 : state :=
  Eval vm_compute in
    match connect (with_lines [(newline, None); (handshake_9000, None)] forwarding)
                  (fresh fixed_port) with
    | Returns st' => st'
    | _ => fresh fixed_port
    end.

(** A child that exits with code 1 without a word. *)
Definition exits_early : program := child [] (Some 1) true.

End Samples.

(** ** Further definitions: views used to state properties of connect() *)

Module Views.
Import Text PortForward.

(** [int(s)] from a running value: the loop inside [int]. *)
Definition int_from (acc : Z) (s : string) : Z :=
  fold_left (fun acc c => 10 * acc + Z.of_nat (nat_of_ascii c - 48))
            (list_ascii_of_string s) acc.

(** [c not in s] *)
Fixpoint lacks (c : ascii) (s : string) : bool :=
  match s with
  | EmptyString => true
  | String c' s' => negb (Ascii.eqb c c') && lacks c s'
  end.

Definition is_group (a : re_atom) : bool :=
  match a with
  | DigitsGroup => true
  | _ => false
  end.

(** The attributes of the handle that [__init__] sets for good. *)
Definition tunnel_spec (s : PortForwarder)
  : string * string * string * Z * string :=
  (context s, namespace s, destination s, remote_port s, local_address s).

(** The state a method call ends in, when it ends. *)
Definition final_state (o : outcome) : option state :=
  match o with
  | Returns st => Some st
  | Raises _ st => Some st
  | Blocks => None
  | Unmodelled => None
  end.

Definition is_kill (ev : event) : option nat :=
  match ev with
  | Kill q => Some q
  | _ => None
  end.

(** The states of a handle built as [s0]: what any sequence of connect()
    and close() calls that ended leaves behind. *)
Inductive reachable (s0 : PortForwarder) : state -> Prop :=
| reach_fresh : reachable s0 (fresh s0)
| reach_connect child st st' :
    reachable s0 st -> final_state (connect child st) = Some st' ->
    reachable s0 st'
| reach_close st st' :
    reachable s0 st -> final_state (close st) = Some st' ->
    reachable s0 st'.

End Views.

(** ** label_dict_to_selector and list_pods_with_labels (lines 57-58,
       365-368) *)

Module Selector.
Import Text Views.

(** [f'{k}=={v}'] for one item of the dict. *)
Definition label_term (kv : string * string) : string :=
  fst kv ++ "==" ++ snd kv.

(** The dict is the list of its items, in insertion order. *)
Definition label_dict_to_selector (labels : list (string * string)) : string :=
  String.concat "," (map label_term labels).

Record V1PodList : Type := { items : list V1Pod }.

Definition list_pods_with_labels
    (list_namespaced_pod : string -> string -> result V1PodList)
    (self : Getters.KubernetesNamespace) (labels : list (string * string))
  : result (list V1Pod) :=
  pod_list <- list_namespaced_pod (Getters.name self)
                                  (label_dict_to_selector labels) ;;
  Ok (items pod_list).

(** A label whose key has neither [=] nor [,] and whose value has no [,]
    (Kubernetes allows no other labels). *)
Definition plain_label (kv : string * string) : bool :=
  lacks "=" (fst kv) && lacks "," (fst kv) && lacks "," (snd kv).

End Selector.

(** ** The checks that the wait methods hand to the retryer (lines 243, 254,
       263, 362) *)

Module Checks.

(** [lambda service: service is None] and its three twins. *)
Definition is_none (v : k8s_object) : bool :=
  match v with
  | PyNone => true
  | _ => false
  end.

(** The check applied to what a getter call gives. *)
Definition checked (check : k8s_object -> bool) (r : result k8s_object)
  : result bool :=
  v <- r ;; Ok (check v).

End Checks.

(** ** get_service_neg (lines 284-291) *)

Module ServiceNeg.
Import Text Getters Predicates.

(** What [json.loads] gives.  Numbers are kept as their text. *)
#[warnings="-register-all"]
Inductive json : Type :=
| JNull
| JBool (b : bool)
| JNumber (literal : string)
| JString (s : string)
| JArray (l : list json)
| JObject (o : list (string * json)).

(** The exceptions of this method: those of the getter and of attribute
    access, and two of its own. *)
Inductive neg_exn : Type :=
| Base (e : exn)
| KeyError (key : string)
| JSONDecodeError.

Inductive neg_result (A : Type) : Type :=
| Got (a : A)
| Fails (e : neg_exn).
Arguments Got {A} a.
Arguments Fails {A} e.

Definition neg_bind {A B} (r : neg_result A) (k : A -> neg_result B)
  : neg_result B :=
  match r with
  | Got a => k a
  | Fails e => Fails e
  end.

Definition lift {A} (r : result A) : neg_result A :=
  match r with
  | Ok a => Got a
  | Raise e => Fails (Base e)
  end.

(** [d[key]] on a dict given by its items. *)
Fixpoint dict_get (o : list (string * json)) (key : string) : option json :=
  match o with
  | [] => None
  | (k, v) :: o' => if String.eqb k key then Some v else dict_get o' key
  end.

(** [v[key]] for a string key: only a dict can be asked. *)
Definition subscript (v : json) (key : string) : neg_result json :=
  match v with
  | JObject o =>
      match dict_get o key with
      | Some x => Got x
      | None => Fails (KeyError key)
      end
  | _ => Fails (Base TypeError)
  end.

(** [service.metadata] *)
Definition metadata_of (service : k8s_object) : result (option V1ObjectMeta) :=
  match service with
  | PyNone => Raise AttributeError
  | AService s => Ok (svc_metadata s)
  | AServiceAccount a => Ok (sa_metadata a)
  | ANamespace n => Ok (ns_metadata n)
  | ADeployment d => Ok (depl_metadata d)
  | APod p => Ok (pod_metadata p)
  end.

(** [annotations[key]] on a dict that may be None. *)
Definition annotation (a : option (gmap string string)) (key : string)
  : neg_result string :=
  match a with
  | None => Fails (Base TypeError)
  | Some m =>
      match m !! key with
      | Some text => Got text
      | None => Fails (KeyError key)
      end
  end.

(** Lines 289-291. *)
Definition read_neg_info (neg_info : json) (service_port : Z)
  : neg_result (json * json) :=
  neg_bind (subscript neg_info "network_endpoint_groups") (fun groups =>
  neg_bind (subscript groups (str service_port)) (fun neg_name =>
  neg_bind (subscript neg_info "zones") (fun neg_zones =>
  Got (neg_name, neg_zones)))).

(** Lines 287-291 on the text of the annotation. *)
Definition parse_neg (json_loads : string -> option json) (text : string)
    (service_port : Z) : neg_result (json * json) :=
  match json_loads text with
  | None => Fails JSONDecodeError
  | Some neg_info => read_neg_info neg_info service_port
  end.

Definition get_service_neg (json_loads : string -> option json)
    (self : KubernetesNamespace) (service_name : string) (service_port : Z)
  : neg_result (json * json) :=
  neg_bind (lift (get_service self service_name)) (fun service =>
  neg_bind (lift (metadata_of service)) (fun metadata =>
  neg_bind (lift (getattr metadata annotations)) (fun a =>
  neg_bind (annotation a NEG_STATUS_META) (fun text =>
  parse_neg json_loads text service_port)))).

End ServiceNeg.

(** ** KubernetesApiManager and its cached clients (lines 61-79) *)

Module ApiClients.

(** Clients are numbered in the order [new_client_from_config] makes them.
    [cache] is the memo of [functools.lru_cache(None)], [closed] the
    clients on which [close()] was called. *)
Record world : Type := {
  cache : gmap string nat;
  made : nat;
  closed : gset nat;
  logged : list string
}.

Definition empty_world : world :=
  {| cache := ∅; made := 0; closed := ∅; logged := [] |}.

Definition quote : string := String "034" EmptyString.

(** Lines 72-79.  [kubeconfig] holds the contexts for which
    [new_client_from_config] succeeds; for any other it raises, and
    nothing is remembered (None). *)
Definition _cached_api_client_for_context (kubeconfig : gset string)
    (host : string -> string) (context : string) (w : world)
  : option (nat * world) :=
  match cache w !! context with
  | Some client => Some (client, w)
  | None =>
      if decide (context ∈ kubeconfig) then
        let client_instance := made w in
        Some (client_instance,
              {| cache := <[context := client_instance]> (cache w);
                 made := S (made w);
                 closed := closed w;
                 logged := logged w
                           ++ ["Using kubernetes context " +:+ quote +:+ context
                               +:+ quote +:+ ", active host: " +:+ host context] |})
      else None
  end.

Record KubernetesApiManager : Type := {
  context : string;
  client : nat
}.

(** Lines 63-67; [apps] and [core] wrap [client]. *)
Definition __init__ (kubeconfig : gset string) (host : string -> string)
    (context : string) (w : world) : option (KubernetesApiManager * world) :=
  match _cached_api_client_for_context kubeconfig host context w with
  | Some (c, w') => Some ({| context := context; client := c |}, w')
  | None => None
  end.

(** Lines 69-70. *)
Definition close (self : KubernetesApiManager) (w : world) : world :=
  {| cache := cache w; made := made w;
     closed := closed w ∪ {[client self]};
     logged := logged w |}.

(** Every remembered client was made, and no two contexts share one. *)
Definition consistent (w : world) : Prop :=
  (forall k c, cache w !! k = Some c -> c < made w)%nat /\
  (forall k1 k2 c, cache w !! k1 = Some c -> cache w !! k2 = Some c -> k1 = k2).

End ApiClients.

(** ** Sample inputs for the further properties *)

Module Cases.
Import Getters Predicates Text PortForward.

(** A second child, with a process id of its own. *)
Definition second_child : program :=
  {| prog_pid := 4343;
     prog_lines := [(Samples.handshake_9000, None)];
     prog_exit := None;
     prog_dies_when_killed := true |}.

Definition reconnected : state :=
  Eval vm_compute in
    match connect second_child (Samples.tracking Samples.mortal) with
    | Returns st' => st'
    | _ => Samples.tracking Samples.mortal
    end.

Definition closed_9000 : state :=
  Eval vm_compute in
    match close Samples.ready_9000 with
    | Returns st' => st'
    | _ => Samples.ready_9000
    end.

(** A handle asked for port 0 on the empty address. *)
Definition zero_port : PortForwarder :=
  __init__ "gke_test" "psm" "pod/psm-grpc-server" 8080 (Some 0) (Some "").

Definition ready_zero : state :=
  Eval vm_compute in
    match connect (with_lines [(Samples.newline, None);
                               (Samples.handshake_54321, None)]
                              Samples.forwarding)
                  (fresh zero_port) with
    | Returns st' => st'
    | _ => fresh zero_port
    end.

Definition labels : list (string * string) :=
  [("app", "psm-grpc-server"); ("deployment_id", "psm-1")].

(** The same dict, built item by item. *)
Definition relabelled : list (string * string) :=
  List.app [("app", "psm-grpc-server")] [("deployment_id", "psm-" ++ "1")].

Definition neg_text : string := "neg-status".

(** A service that carries the NEG status annotation. *)
Definition service_with_neg : V1Service :=
  {| svc_metadata :=
       Some {| meta_name := Some "psm-grpc-server";
               annotations := Some {[ NEG_STATUS_META := neg_text ]} |} |}.

Definition api_with_service : KubernetesApiManager :=
  {| api_context := "gke_test";
     apps := {| read_namespaced_deployment := fun _ _ => Samples.not_found |};
     core := {| read_namespaced_service := fun _ _ => Ok (AService service_with_neg);
                read_namespaced_service_account := fun _ _ => Samples.not_found;
                read_namespace := fun _ => Samples.not_found;
                read_namespaced_pod := fun _ _ => Samples.not_found |} |}.

Definition ns_with_service : KubernetesNamespace :=
  {| name := "psm"; api := api_with_service |}.

Definition neg_info : ServiceNeg.json :=
  ServiceNeg.JObject
    [("network_endpoint_groups",
      ServiceNeg.JObject [("8080", ServiceNeg.JString "k8s1-neg")]);
     ("zones", ServiceNeg.JArray [ServiceNeg.JString "us-central1-a"])].

(** A stand-in for [json.loads] that knows the one text. *)
Definition json_loads (text : string) : option ServiceNeg.json :=
  if String.eqb text neg_text then Some neg_info else None.

Definition kubeconfig : gset string := {[ "gke_test"; "gke_alt" ]}.

Definition host (context : string) : string := "https://10.0.0.1".

Definition first_manager : ApiClients.KubernetesApiManager :=
  {| ApiClients.context := "gke_test"; ApiClients.client := 0 |}.

Definition first_world : ApiClients.world :=
  {| ApiClients.cache := {[ "gke_test" := 0%nat ]};
     ApiClients.made := 1;
     ApiClients.closed := ∅;
     ApiClients.logged :=
       ["Using kubernetes context " +:+ ApiClients.quote +:+ "gke_test"
        +:+ ApiClients.quote +:+ ", active host: https://10.0.0.1"] |}.

Definition second_manager : ApiClients.KubernetesApiManager :=
  {| ApiClients.context := "gke_alt"; ApiClients.client := 1 |}.

Definition second_world : ApiClients.world :=
  {| ApiClients.cache := <[ "gke_alt" := 1%nat ]> {[ "gke_test" := 0%nat ]};
     ApiClients.made := 2;
     ApiClients.closed := ∅;
     ApiClients.logged :=
       ["Using kubernetes context " +:+ ApiClients.quote +:+ "gke_test"
        +:+ ApiClients.quote +:+ ", active host: https://10.0.0.1";
        "Using kubernetes context " +:+ ApiClients.quote +:+ "gke_alt"
        +:+ ApiClients.quote +:+ ", active host: https://10.0.0.1"] |}.

End Cases.

(** * Properties *)

Import Getters Predicates Text PortForward.

(** ** The getters *)

Section GetterFacts.
Context {A : Type} (func : A -> result k8s_object) (args : A).

Lemma simple_resource_get_ok (v : k8s_object) :
  func args = Ok v -> simple_resource_get func args = Ok v.
Proof. unfold simple_resource_get. intros ->. reflexivity. Qed.

Lemma simple_resource_get_404 :
  func args = Raise (ApiException (Some 404)) ->
  simple_resource_get func args = Ok PyNone.
Proof. unfold simple_resource_get. intros ->. reflexivity. Qed.

(** Any failure other than an API 404 comes out unchanged. *)
Lemma simple_resource_get_propagates (e : exn) :
  func args = Raise e ->
  e <> ApiException (Some 404) ->
  simple_resource_get func args = Raise e.
Proof.
  unfold simple_resource_get. intros -> Hne.
  destruct e as [[st|]| | | | |]; try reflexivity.
  destruct st as [|q|q]; try reflexivity.
  destruct (decide (q = 404%positive)) as [->|Hq]; [congruence|].
  do 9 (destruct q as [q|q|]; try reflexivity); congruence.
Qed.

(** The wrapper never turns a value into None. *)
Lemma simple_resource_get_none_only_on_404 :
  simple_resource_get func args = Ok PyNone ->
  func args = Ok PyNone \/ func args = Raise (ApiException (Some 404)).
Proof.
  unfold simple_resource_get.
  destruct (func args) as [v|e]; [intros [= ->]; now left|].
  destruct e as [[st|]| | | | |]; try discriminate.
  destruct st as [|q|q]; try discriminate.
  do 9 (destruct q as [q|q|]; try discriminate).
  intros _. now right.
Qed.
End GetterFacts.

(** The four decorated getters, on any cluster. *)
Lemma decorated_getters_not_found (self : KubernetesNamespace) (n : string) :
  (read_namespaced_service (core (api self)) n (name self) = Samples.not_found ->
   get_service self n = Ok PyNone) /\
  (read_namespaced_service_account (core (api self)) n (name self) = Samples.not_found ->
   get_service_account self n = Ok PyNone) /\
  (read_namespace (core (api self)) (name self) = Samples.not_found ->
   get self = Ok PyNone) /\
  (read_namespaced_deployment (apps (api self)) n (name self) = Samples.not_found ->
   get_deployment self n = Ok PyNone).
Proof.
  unfold get_service, get_service_account, get, get_deployment, Samples.not_found.
  repeat split; intros H; now apply simple_resource_get_404.
Qed.

Lemma decorated_getters_propagate (self : KubernetesNamespace) (n : string) (e : exn) :
  e <> ApiException (Some 404) ->
  (read_namespaced_service (core (api self)) n (name self) = Raise e ->
   get_service self n = Raise e) /\
  (read_namespaced_service_account (core (api self)) n (name self) = Raise e ->
   get_service_account self n = Raise e) /\
  (read_namespace (core (api self)) (name self) = Raise e ->
   get self = Raise e) /\
  (read_namespaced_deployment (apps (api self)) n (name self) = Raise e ->
   get_deployment self n = Raise e).
Proof.
  intros Hne. unfold get_service, get_service_account, get, get_deployment.
  repeat split; intros H; now apply simple_resource_get_propagates.
Qed.

(** [get_pod] hands back whatever the client call does, on any cluster. *)
Lemma get_pod_is_raw_read (self : KubernetesNamespace) (n : string) :
  get_pod self n = read_namespaced_pod (core (api self)) n (name self).
Proof. reflexivity. Qed.

(** C5.  On a cluster that answers 404 to every read, the four decorated
    getters return None, but [get_pod], which the source leaves without the
    [simple_resource_get] decorator, raises the [ApiException] instead of
    returning None. *)
Theorem get_pod_not_found_raises (n : string) :
  get_service Samples.ns_404 n = Ok PyNone /\
  get_service_account Samples.ns_404 n = Ok PyNone /\
  get Samples.ns_404 = Ok PyNone /\
  get_deployment Samples.ns_404 n = Ok PyNone /\
  get_pod Samples.ns_404 n = Raise (ApiException (Some 404)).
Proof. repeat split. Qed.

(** ** The predicates *)

Lemma check_service_neg_annotation_absent :
  _check_service_neg_annotation PyNone = Ok false.
Proof. reflexivity. Qed.

(** With an annotation map in place the predicate is the membership test. *)
Lemma check_service_neg_annotation_present
    (nm : option string) (m : gmap string string) :
  _check_service_neg_annotation
    (AService {| svc_metadata := Some {| meta_name := nm; annotations := Some m |} |})
  = Ok (bool_decide (NEG_STATUS_META ∈ dom m)).
Proof.
  cbn. f_equal. apply bool_decide_ext. symmetry. apply elem_of_dom.
Qed.

Lemma check_service_neg_annotation_empty (nm : option string) :
  _check_service_neg_annotation
    (AService {| svc_metadata := Some {| meta_name := nm; annotations := Some ∅ |} |})
  = Ok false.
Proof. reflexivity. Qed.

(** C1.  A present service whose annotation map is missing (None, which is
    what the client gives for an object without annotations) makes
    [_check_service_neg_annotation] raise [TypeError]: the membership test
    runs on None.  It does not return false there. *)
Theorem check_service_neg_annotation_missing_map_raises (nm : option string) :
  _check_service_neg_annotation
    (AService {| svc_metadata := Some {| meta_name := nm; annotations := None |} |})
  = Raise TypeError.
Proof. reflexivity. Qed.

Lemma replicas_available_reported (md : option V1ObjectMeta) (n count : Z) :
  _replicas_available
    (ADeployment {| depl_metadata := md;
                    depl_status := Some {| available_replicas := Some n |} |}) count
  = Ok (bool_decide (count <= n)).
Proof.
  cbn. f_equal. destruct (Z.leb_spec count n).
  - now rewrite bool_decide_eq_true_2.
  - rewrite bool_decide_eq_false_2; [reflexivity | lia].
Qed.

Lemma replicas_available_not_a_deployment (v : k8s_object) (count : Z) :
  (forall d, v <> ADeployment d) -> _replicas_available v count = Ok false.
Proof. destruct v; intros H; try reflexivity. now destruct (H d). Qed.

(** A deployment object that carries no status object at all is another
    input than an unreported count: the attribute read fails there. *)
Lemma replicas_available_without_status (md : option V1ObjectMeta) (count : Z) :
  _replicas_available
    (ADeployment {| depl_metadata := md; depl_status := None |}) count
  = Raise AttributeError.
Proof. reflexivity. Qed.

(** C9.  [_replicas_available] with n = 3: false on an absent value, false
    when the count was never reported (and no error then), false at 2, true
    at 3 and at 4. *)
Theorem replicas_available_three (md : option V1ObjectMeta) :
  _replicas_available PyNone 3 = Ok false /\
  _replicas_available (Samples.deployment_reporting md None) 3 = Ok false /\
  _replicas_available (Samples.deployment_reporting md (Some 2)) 3 = Ok false /\
  _replicas_available (Samples.deployment_reporting md (Some 3)) 3 = Ok true /\
  _replicas_available (Samples.deployment_reporting md (Some 4)) 3 = Ok true.
Proof. repeat split. Qed.

(** ** Text and patterns *)

Lemma append_cons c a b : String c a ++ b = String c (a ++ b).
Proof. reflexivity. Qed.

Lemma append_assoc a b c : (a ++ b) ++ c = a ++ (b ++ c).
Proof.
  induction a as [|x a IH]; [reflexivity|].
  rewrite !append_cons, IH. reflexivity.
Qed.

Lemma append_empty_r a : a ++ "" = a.
Proof.
  induction a as [|x a IH]; [reflexivity|]. rewrite append_cons, IH. reflexivity.
Qed.

Lemma re_of_text_cons c t :
  re_of_text (String c t) =
    match re_of_text t with
    | None => None
    | Some r =>
        if Ascii.eqb c "." then Some (AnyChar :: r)
        else if is_meta c then None
        else Some (Lit c :: r)
    end.
Proof. reflexivity. Qed.

Lemma re_of_text_app a b :
  re_of_text (a ++ b) =
    match re_of_text a, re_of_text b with
    | Some x, Some y => Some (x ++ y)%list
    | _, _ => None
    end.
Proof.
  induction a as [|c a IH].
  - change ("" ++ b) with b. cbn. destruct (re_of_text b); reflexivity.
  - rewrite append_cons, !re_of_text_cons, IH.
    destruct (re_of_text a) as [x|]; [|reflexivity].
    destruct (re_of_text b) as [y|].
    + destruct (Ascii.eqb c "."); [reflexivity|]. destruct (is_meta c); reflexivity.
    + destruct (Ascii.eqb c "."); [reflexivity|]. destruct (is_meta c); reflexivity.
Qed.

Lemma re_of_text_uint d : is_Some (re_of_text (NilEmpty.string_of_uint d)).
Proof.
  induction d; cbn [NilEmpty.string_of_uint]; [now eexists|..];
    rewrite re_of_text_cons; destruct IHd as [r ->]; now eexists.
Qed.

Lemma re_of_text_str n : is_Some (re_of_text (str n)).
Proof.
  unfold str, NilZero.string_of_int, NilZero.string_of_uint.
  destruct (Z.to_int n) as [d|d].
  - destruct d; try apply re_of_text_uint. now eexists.
  - rewrite re_of_text_cons.
    assert (is_Some (re_of_text match d with
                               | Decimal.Nil => "0"
                               | _ => NilEmpty.string_of_uint d end)) as [r ->].
    { destruct d; try apply re_of_text_uint. now eexists. }
    now eexists.
Qed.

(** The pattern compiles whenever the address is in the fragment. *)
Lemma local_port_re_plain s :
  is_Some (re_of_text (local_address s)) -> is_Some (local_port_re s).
Proof.
  intros [a Ha]. unfold local_port_re.
  rewrite !re_of_text_app, Ha.
  destruct (re_of_text_str (remote_port s)) as [r ->].
  cbn. now eexists.
Qed.

Lemma match_here_text t : forall r cont u,
  re_of_text t = Some r ->
  match_here (r ++ cont)%list (t ++ u) = match_here cont u.
Proof.
  induction t as [|c t IH]; intros r cont u.
  - intros [= <-]. reflexivity.
  - rewrite re_of_text_cons, append_cons.
    destruct (re_of_text t) as [r'|]; [|discriminate].
    destruct (Ascii.eqb_spec c ".") as [->|Hdot].
    + intros [= <-]. cbn. now apply IH.
    + destruct (is_meta c); [discriminate|]. intros [= <-].
      cbn. rewrite Ascii.eqb_refl. now apply IH.
Qed.

Lemma digit_run_app digits u :
  all_digits digits = true ->
  digit_run u = O ->
  digit_run (digits ++ u) = String.length digits.
Proof.
  intros Hd Hu. induction digits as [|c d IH]; [exact Hu|].
  cbn in Hd. apply andb_prop in Hd as [Hc Hd].
  rewrite append_cons. cbn. rewrite Hc, (IH Hd). reflexivity.
Qed.

Lemma take_app digits u : take (String.length digits) (digits ++ u) = digits.
Proof.
  induction digits as [|c d IH]; [now destruct u|].
  rewrite append_cons. cbn. now rewrite IH.
Qed.

Lemma drop_app digits u : drop (String.length digits) (digits ++ u) = u.
Proof.
  induction digits as [|c d IH]; [now destruct u|].
  rewrite append_cons. cbn. exact IH.
Qed.

Lemma match_here_digits cont digits u :
  digits <> "" ->
  all_digits digits = true ->
  digit_run u = O ->
  is_Some (match_here cont u) ->
  match_here (DigitsGroup :: cont) (digits ++ u) = Some digits.
Proof.
  intros Hne Hd Hu [g Hg]. cbn [match_here].
  rewrite (digit_run_app _ _ Hd Hu).
  destruct digits as [|c d]; [contradiction|].
  change (String.length (String c d)) with (S (String.length d)).
  cbn [longest_first].
  change (S (String.length d)) with (String.length (String c d)).
  rewrite drop_app, Hg, take_app. reflexivity.
Qed.

Lemma re_search_here r s g : match_here r s = Some g -> re_search r s = Some g.
Proof. intros H. destruct s; cbn; now rewrite H. Qed.

(** A line in the documented form is found by the pattern, with the port
    as group 1. *)
Lemma search_handshake_line s re digits :
  local_port_re s = Some re ->
  digits <> "" ->
  all_digits digits = true ->
  re_search re ("Forwarding from " ++ local_address s ++ ":" ++ digits
                  ++ " -> " ++ str (remote_port s))
  = Some digits.
Proof.
  unfold local_port_re. intros Hre Hne Hd.
  destruct (re_of_text ("Forwarding from " ++ local_address s ++ ":"))
    as [before|] eqn:Hb; [|discriminate].
  destruct (re_of_text (" -> " ++ str (remote_port s))) as [after|] eqn:Ha;
    [|discriminate].
  injection Hre as <-.
  apply re_search_here.
  replace ("Forwarding from " ++ local_address s ++ ":" ++ digits
             ++ " -> " ++ str (remote_port s))
    with (("Forwarding from " ++ local_address s ++ ":")
            ++ digits ++ " -> " ++ str (remote_port s))
    by now rewrite !append_assoc.
  rewrite (match_here_text _ _ _ _ Hb).
  apply match_here_digits; [assumption..|reflexivity|].
  rewrite <- (app_nil_r after), <- (append_empty_r (" -> " ++ _)).
  rewrite (match_here_text _ _ _ _ Ha). now eexists.
Qed.

(** ** close() *)

Lemma close_untracked (st : state) :
  subprocess (self st) = None -> close st = Returns st.
Proof. unfold close. intros ->. reflexivity. Qed.

Lemma kill_gone (p : Popen) :
  gone_after_kill p = true -> exists rc, returncode (kill p) = Some rc.
Proof.
  unfold gone_after_kill, kill.
  destruct (returncode p) as [rc|] eqn:E.
  - intros _. exists rc. exact E.
  - intros ->. exists (-9). reflexivity.
Qed.

Lemma kill_survived (p : Popen) :
  gone_after_kill p = false -> kill p = p /\ returncode p = None.
Proof.
  unfold gone_after_kill, kill.
  destruct (returncode p); [discriminate|]. intros ->. split; reflexivity.
Qed.

Lemma kill_pid (p : Popen) : pid (kill p) = pid p.
Proof. unfold kill. destruct (returncode p), (dies_when_killed p); reflexivity. Qed.

(** What close() does to a tracked process that is gone in time. *)
Lemma close_gone (st : state) (p : Popen) :
  subprocess (self st) = Some p ->
  gone_after_kill p = true ->
  close st =
    Returns
      {| self := set_subprocess None (self st);
         untracked := set_stdout [] (kill p) :: untracked st;
         events := events st
                   ++ [LogInfo ("Shutting down port forwarding, pid " ++ str_nat (pid p));
                       Kill (pid p);
                       LogInfo "Port forwarding stopped";
                       LogDebug ("Port forwarding remaining stdout: "
                                 ++ String.concat "" (map fst (stdout p)))] |}.
Proof.
  intros Hp Hg. destruct (kill_gone p Hg) as [rc Hrc].
  unfold close, communicate. rewrite Hp, Hrc, kill_pid.
  assert (Hs : stdout (kill p) = stdout p).
  { unfold kill. destruct (returncode p), (dies_when_killed p); reflexivity. }
  rewrite Hs. unfold release, emit, with_self; cbn.
  rewrite <- !app_assoc. reflexivity.
Qed.

(** What close() does to a tracked process that is still there after 5 s. *)
Lemma close_survived (st : state) (p : Popen) :
  subprocess (self st) = Some p ->
  gone_after_kill p = false ->
  close st =
    Raises TimeoutExpired
      {| self := set_subprocess (Some p) (self st);
         untracked := untracked st;
         events := events st
                   ++ [LogInfo ("Shutting down port forwarding, pid " ++ str_nat (pid p));
                       Kill (pid p)] |}.
Proof.
  intros Hp Hg. destruct (kill_survived p Hg) as [Hk Hrc].
  unfold close, communicate. rewrite Hp, Hk, Hrc.
  unfold emit, with_self; cbn. rewrite <- !app_assoc. reflexivity.
Qed.

(** close() always comes to an end. *)
Lemma close_never_blocks (st : state) :
  close st <> Blocks /\ close st <> Unmodelled.
Proof.
  destruct (subprocess (self st)) as [p|] eqn:Hp.
  - destruct (gone_after_kill p) eqn:Hg.
    + rewrite (close_gone st p Hp Hg). split; discriminate.
    + rewrite (close_survived st p Hp Hg). split; discriminate.
  - rewrite (close_untracked st Hp). split; discriminate.
Qed.

(** C2 (as the code has it).  close() never hangs.  On a tracked process it
    returns normally, with the tracking cleared and the process reaped, when
    the killed process is gone within the grace period; when it is not,
    [TimeoutExpired] is raised to the caller, the process stays tracked and
    the only records are the shutdown message and the kill. *)
Theorem close_returns_or_times_out (st : state) :
  close st <> Blocks /\
  match subprocess (self st) with
  | None => close st = Returns st
  | Some p =>
      if gone_after_kill p
      then exists st', close st = Returns st' /\
                       subprocess (self st') = None /\
                       (exists p', untracked st' = p' :: untracked st /\
                                   pid p' = pid p /\ running p' = false)
      else exists st', close st = Raises TimeoutExpired st' /\
                       subprocess (self st') = Some p /\
                       untracked st' = untracked st /\
                       events st' =
                         (events st
                          ++ [LogInfo ("Shutting down port forwarding, pid "
                                       ++ str_nat (pid p));
                              Kill (pid p)])%list
  end.
Proof.
  split; [apply close_never_blocks|].
  destruct (subprocess (self st)) as [p|] eqn:Hp; [|now apply close_untracked].
  destruct (gone_after_kill p) eqn:Hg.
  - eexists. split; [apply (close_gone st p Hp Hg)|]. cbn.
    split; [reflexivity|]. eexists. split; [reflexivity|].
    destruct (kill_gone p Hg) as [rc Hrc].
    split; [apply kill_pid|]. unfold running; cbn. now rewrite Hrc.
  - eexists. split; [apply (close_survived st p Hp Hg)|]. cbn. repeat split.
Qed.

(** C2, the claim as written fails: a tracked process that is still there
    5 s after the kill makes close() raise [TimeoutExpired]; the call does
    not return normally and the process stays tracked. *)
Lemma close_stubborn_raises :
  close (Samples.tracking Samples.stubborn) =
    Raises TimeoutExpired
      (emit [LogInfo "Shutting down port forwarding, pid 4242"; Kill 4242]
            (Samples.tracking Samples.stubborn)).
Proof. reflexivity. Qed.

(** C4.  close() with nothing tracked changes nothing, and after a close()
    that returned, a second close() returns the very same state: no error,
    no second kill, no further record.  (A close() that raised left a
    process that is still running, so a later kill is not aimed at a
    terminated one either.) *)
Theorem close_twice (st : state) :
  (subprocess (self st) = None -> close st = Returns st) /\
  (forall st', close st = Returns st' ->
               subprocess (self st') = None /\ close st' = Returns st') /\
  (forall e st', close st = Raises e st' ->
                 exists p, subprocess (self st') = Some p /\ running p = true).
Proof.
  split; [apply close_untracked|]. split; cycle 1.
  { intros e st' H. destruct (subprocess (self st)) as [p|] eqn:Hp.
    - destruct (gone_after_kill p) eqn:Hg.
      + rewrite (close_gone st p Hp Hg) in H. discriminate.
      + rewrite (close_survived st p Hp Hg) in H. injection H as <- <-.
        exists p. split; [reflexivity|]. unfold running.
        now rewrite (proj2 (kill_survived p Hg)).
    - rewrite (close_untracked st Hp) in H. discriminate. }
  intros st' H.
  assert (Hn : subprocess (self st') = None).
  { destruct (subprocess (self st)) as [p|] eqn:Hp.
    - destruct (gone_after_kill p) eqn:Hg.
      + rewrite (close_gone st p Hp Hg) in H. injection H as <-. reflexivity.
      + rewrite (close_survived st p Hp Hg) in H. discriminate.
    - rewrite (close_untracked st Hp) in H. injection H as <-. exact Hp. }
  split; [exact Hn | now apply close_untracked].
Qed.

Lemma close_twice_witness :
  (subprocess (self (fresh Samples.fixed_port)) = None /\
   close (fresh Samples.fixed_port) = Returns (fresh Samples.fixed_port)) /\
  (close (Samples.tracking Samples.mortal) = Returns Samples.closed_once /\
   subprocess (self Samples.closed_once) = None /\
   close Samples.closed_once = Returns Samples.closed_once) /\
  (close (Samples.tracking Samples.stubborn)
   = Raises TimeoutExpired Samples.closed_in_vain /\
   exists p, subprocess (self Samples.closed_in_vain) = Some p /\ running p = true).
Proof.
  split; [|split].
  - split; [reflexivity|].
    apply (proj1 (close_twice (fresh Samples.fixed_port))). reflexivity.
  - split; [reflexivity|].
    apply (proj1 (proj2 (close_twice (Samples.tracking Samples.mortal)))).
    reflexivity.
  - split; [reflexivity|].
    apply (proj2 (proj2 (close_twice (Samples.tracking Samples.stubborn)))
             TimeoutExpired).
    reflexivity.
Defined.

(** ** connect() *)

Lemma handshake_loop_cons re s p raw polled rest :
  handshake_loop re s p ((raw, polled) :: rest) =
    if String.eqb (strip raw) "" then
      match polled with
      | Some return_code =>
          LoopRaises (PortForwardingError (KubectlExited return_code (map fst rest)))
                     (set_returncode (Some return_code) (set_stdout [] p))
      | None => handshake_loop re s p rest
      end
    else
      match validate re s (strip raw) with
      | Raise e => LoopRaises e (set_stdout rest p)
      | Ok s' => Break (strip raw) s' (set_stdout rest p)
      end.
Proof. reflexivity. Qed.

Lemma validate_set_subprocess re x s out :
  validate re (set_subprocess x s) out =
    match validate re s out with
    | Ok s' => Ok (set_subprocess x s')
    | Raise e => Raise e
    end.
Proof.
  unfold validate, local_port_expected. cbn.
  destruct (truthy (local_port s)).
  - destruct (String.eqb out _); reflexivity.
  - destruct (re_search re out); reflexivity.
Qed.

Lemma handshake_loop_set_subprocess re x s p l :
  handshake_loop re (set_subprocess x s) p l =
    match handshake_loop re s p l with
    | Break o s' p' => Break o (set_subprocess x s') p'
    | other => other
    end.
Proof.
  induction l as [|[raw polled] rest IH].
  - cbn. destruct (exit_at_eof p); reflexivity.
  - rewrite !handshake_loop_cons. destruct (String.eqb (strip raw) "").
    + destruct polled; [reflexivity | apply IH].
    + rewrite validate_set_subprocess. destruct (validate re s (strip raw)); reflexivity.
Qed.

Lemma handshake_loop_set_stdout re s p l0 l :
  handshake_loop re s (set_stdout l0 p) l = handshake_loop re s p l.
Proof.
  induction l as [|[raw polled] rest IH].
  - cbn. destruct (exit_at_eof p); reflexivity.
  - rewrite !handshake_loop_cons. destruct (String.eqb (strip raw) "").
    + destruct polled; [reflexivity | apply IH].
    + destruct (validate re s (strip raw)); reflexivity.
Qed.

Lemma handshake_loop_skip re s p blanks rest :
  forallb blank_alive blanks = true ->
  handshake_loop re s p (blanks ++ rest)%list = handshake_loop re s p rest.
Proof.
  induction blanks as [|[raw polled] blanks IH]; [reflexivity|].
  cbn [forallb app]. intros [Hb Hrest]%andb_prop.
  unfold blank_alive in Hb. cbn [fst snd] in Hb. apply andb_prop in Hb as [Hraw Hpoll].
  destruct polled; [discriminate|].
  rewrite handshake_loop_cons, Hraw. now apply IH.
Qed.

(** A read that does not strip to nothing goes through the check, and ends the loop. *)
Lemma handshake_loop_line re s p raw polled rest :
  strip raw <> "" ->
  handshake_loop re s p ((raw, polled) :: rest) =
    match validate re s (strip raw) with
    | Raise e => LoopRaises e (set_stdout rest p)
    | Ok s' => Break (strip raw) s' (set_stdout rest p)
    end.
Proof.
  intros Hne. rewrite handshake_loop_cons.
  destruct (String.eqb_spec (strip raw) ""); [contradiction|reflexivity].
Qed.

Lemma connect_unfold child st :
  connect child st =
    match compiled (self st) with
    | None => Unmodelled
    | Some re =>
        match handshake_loop re (self st) (start (cmd (self st)) child)
                             (prog_lines child) with
        | Break output s' p' =>
            Returns (emit [LogInfo output] (handshaking child st s' p'))
        | LoopRaises e p' =>
            on_exception e (handshaking child st (self st) p')
        | Forever => Blocks
        end
    end.
Proof.
  unfold connect, spawn. cbn.
  change (compiled (set_subprocess _ (self st))) with (compiled (self st)).
  destruct (compiled (self st)) as [re|]; [|reflexivity].
  rewrite handshake_loop_set_subprocess.
  destruct (handshake_loop re (self st) _ _); reflexivity.
Qed.

Lemma connect_skips_blank_reads child st blanks lines :
  forallb blank_alive blanks = true ->
  connect (with_lines (blanks ++ lines) child) st = connect (with_lines lines child) st.
Proof.
  intros Hb. rewrite !connect_unfold. cbn.
  destruct (compiled (self st)) as [re|]; [|reflexivity].
  change (start (cmd (self st)) (with_lines (blanks ++ lines) child))
    with (set_stdout (blanks ++ lines)%list (start (cmd (self st)) (with_lines lines child))).
  rewrite handshake_loop_set_stdout, (handshake_loop_skip _ _ _ _ _ Hb).
  destruct (handshake_loop re (self st) _ lines) as [o s' p'|e p'|] eqn:E; try reflexivity.
Qed.

Lemma on_exception_gone e st p :
  subprocess (self st) = Some p ->
  gone_after_kill p = true ->
  exists st', on_exception e st = Raises e st' /\
              subprocess (self st') = None /\
              untracked st' = set_stdout [] (kill p) :: untracked st /\
              (exists tl, events st' = (events st ++ LogInfo ("Shutting down port forwarding, pid " ++ str_nat (pid p)) :: Kill (pid p) :: tl)%list).
Proof.
  intros Hp Hg. unfold on_exception. rewrite (close_gone st p Hp Hg).
  eexists. split; [reflexivity|]. cbn. repeat split. eexists. reflexivity.
Qed.

Lemma on_exception_survived e st p :
  subprocess (self st) = Some p ->
  gone_after_kill p = false ->
  exists st', on_exception e st = Raises TimeoutExpired st' /\
              subprocess (self st') = Some p /\
              untracked st' = untracked st /\
              events st' = (events st ++ [LogInfo ("Shutting down port forwarding, pid " ++ str_nat (pid p)); Kill (pid p)])%list.
Proof.
  intros Hp Hg. unfold on_exception. rewrite (close_survived st p Hp Hg).
  eexists. split; [reflexivity|]. cbn. repeat split.
Qed.

(** The [except] clause runs close() whatever the exception is. *)
Lemma on_exception_always_closes e st p :
  subprocess (self st) = Some p ->
  exists e' st' tl,
    on_exception e st = Raises e' st' /\
    (e' = e \/ e' = TimeoutExpired) /\
    events st' =
      (events st ++ LogInfo ("Shutting down port forwarding, pid " ++ str_nat (pid p))
         :: Kill (pid p) :: tl)%list.
Proof.
  intros Hp. destruct (gone_after_kill p) eqn:Hg.
  - destruct (on_exception_gone e st p Hp Hg) as (st' & H & _ & _ & tl & Hev).
    exists e, st', tl. auto.
  - destruct (on_exception_survived e st p Hp Hg) as (st' & H & _ & _ & Hev).
    exists TimeoutExpired, st', []. auto.
Qed.

(** What the loop can raise, and the process it leaves. *)
Lemma handshake_loop_raises re s p l e p' :
  handshake_loop re s p l = LoopRaises e p' ->
  pid p' = pid p /\ dies_when_killed p' = dies_when_killed p /\
  ((exists rc errors, e = PortForwardingError (KubectlExited rc errors) /\ returncode p' = Some rc) \/
   (exists output, e = PortForwardingError (UnexpectedOutput output) /\ returncode p' = returncode p)).
Proof.
  induction l as [|[raw polled] rest IH].
  - cbn. destruct (exit_at_eof p) as [rc|]; [|discriminate].
    intros [= <- <-]. cbn. repeat split. left. eauto.
  - rewrite handshake_loop_cons. destruct (String.eqb (strip raw) "").
    + destruct polled as [rc|]; [|exact IH].
      intros [= <- <-]. cbn. repeat split. left. eauto.
    + unfold validate. destruct (truthy (local_port s)).
      * destruct (negb _); [|discriminate]. intros [= <- <-]. cbn. repeat split. right. eauto.
      * destruct (re_search re (strip raw)); [discriminate|].
        intros [= <- <-]. cbn. repeat split. right. eauto.
Qed.

(** C3 (as the code has it).  Whenever connect() raises, the [except]
    clause has run close() on the process it started: the shutdown message
    and the kill follow the spawn in the record.  Then either the child was
    gone within the grace period, the exception of the loop propagates and
    the child is neither tracked nor running; or the child outlasted the
    grace period, [TimeoutExpired] propagates in place of the loop's
    exception and the child is still tracked and running. *)
Theorem failed_connect_closes child st e st' :
  connect child st = Raises e st' ->
  (exists tl, events st' =
     (events st ++ Spawn (prog_pid child) (cmd (self st))
        :: LogInfo ("Shutting down port forwarding, pid " ++ str_nat (prog_pid child))
        :: Kill (prog_pid child) :: tl)%list) /\
  ((exists re p0 p,
      compiled (self st) = Some re /\
      handshake_loop re (self st) (start (cmd (self st)) child) (prog_lines child)
      = LoopRaises e p0 /\
      subprocess (self st') = None /\
      untracked st' = p :: released st /\
      pid p = prog_pid child /\ running p = false)
   \/
   (e = TimeoutExpired /\ prog_dies_when_killed child = false /\
    exists p, subprocess (self st') = Some p /\
              pid p = prog_pid child /\ running p = true)).
Proof.
  rewrite connect_unfold.
  destruct (compiled (self st)) as [re|]; [|discriminate].
  destruct (handshake_loop re (self st) _ _) as [o s' p'|e0 p'|] eqn:Hloop;
    try discriminate.
  pose proof (handshake_loop_raises _ _ _ _ _ _ Hloop) as (Hpid & Hdies & _).
  cbn in Hpid, Hdies.
  set (st1 := handshaking child st (self st) p').
  assert (Hsub : subprocess (self st1) = Some p') by reflexivity.
  destruct (gone_after_kill p') eqn:Hg.
  - destruct (on_exception_gone e0 st1 p' Hsub Hg) as (st2 & -> & Hnone & Hun & tl & Hev).
    intros [= <- <-]. split.
    + exists tl. rewrite Hev, Hpid. cbn. rewrite <- app_assoc. reflexivity.
    + left. destruct (kill_gone p' Hg) as [rc Hrc].
      exists re, p', (set_stdout [] (kill p')). repeat split; try assumption.
      * cbn. rewrite kill_pid. exact Hpid.
      * unfold running. cbn. now rewrite Hrc.
  - destruct (on_exception_survived e0 st1 p' Hsub Hg) as (st2 & -> & Hsome & Hun & Hev).
    intros [= <- <-]. split.
    + exists []. rewrite Hev, Hpid. cbn. rewrite <- app_assoc. reflexivity.
    + right. destruct (kill_survived p' Hg) as [_ Hrc].
      repeat split.
      * unfold gone_after_kill in Hg. rewrite Hrc, Hdies in Hg. exact Hg.
      * exists p'. repeat split; try assumption. unfold running. now rewrite Hrc.
Qed.

Lemma failed_connect_closes_witness :
  connect Samples.rejected_child (fresh Samples.fixed_port)
  = Raises (PortForwardingError (UnexpectedOutput "error: unable to listen on port"))
           Samples.rejected_state /\
  exists tl, events Samples.rejected_state =
     ([] ++ Spawn 4242 (cmd Samples.fixed_port)
         :: LogInfo ("Shutting down port forwarding, pid " ++ str_nat 4242)
         :: Kill 4242 :: tl)%list.
Proof.
  split; [reflexivity|].
  apply (failed_connect_closes Samples.rejected_child (fresh Samples.fixed_port)
           (PortForwardingError (UnexpectedOutput "error: unable to listen on port"))
           Samples.rejected_state).
  reflexivity.
Defined.

(** The spec's case: a fixed port, a child that prints another line and
    goes away when killed.  Nothing is left tracked or running. *)
Lemma rejected_connect_leaves_nothing :
  tracked Samples.rejected_state = false /\
  any_running Samples.rejected_state = false.
Proof. split; reflexivity. Qed.

(** C3, the claim as written fails: the child prints a line that is not
    the handshake and is still there 5 s after the kill.  connect() then
    raises [TimeoutExpired] with the child still tracked and running. *)
Lemma failed_connect_leaves_stubborn_child :
  connect Samples.stubborn_child (fresh Samples.fixed_port)
  = Raises TimeoutExpired Samples.stuck_state /\
  tracked Samples.stuck_state = true /\
  any_running Samples.stuck_state = true.
Proof. repeat split. Qed.

Lemma connect_exit_seen child st re rc errors p' :
  compiled (self st) = Some re ->
  handshake_loop re (self st) (start (cmd (self st)) child) (prog_lines child)
    = LoopRaises (PortForwardingError (KubectlExited rc errors)) p' ->
  exists st', connect child st = Raises (PortForwardingError (KubectlExited rc errors)) st' /\
              subprocess (self st') = None /\
              exists p, untracked st' = p :: released st /\ pid p = prog_pid child /\
                        returncode p = Some rc.
Proof.
  intros Hc Hloop. rewrite connect_unfold, Hc, Hloop.
  pose proof (handshake_loop_raises _ _ _ _ _ _ Hloop) as (Hpid & _ & Hcase).
  destruct Hcase as [(rc' & errs & [= <- <-] & Hrc)|(out & [=] & _)].
  assert (Hg : gone_after_kill p' = true) by (unfold gone_after_kill; now rewrite Hrc).
  destruct (on_exception_gone (PortForwardingError (KubectlExited rc errors))
              (handshaking child st (self st) p') p' eq_refl Hg)
    as (st2 & -> & Hnone & Hun & _).
  exists st2. repeat split; [exact Hnone|].
  exists (set_stdout [] (kill p')). repeat split; [exact Hun| |].
  - cbn. now rewrite kill_pid.
  - cbn. unfold kill. now rewrite Hrc.
Qed.

(** C6.  In the read loop an empty read is no error.  Reads that strip to
    nothing while the child is up are passed over, and the loop keeps
    waiting; it never returns if nothing else comes.  An empty read after
    which the child is found exited makes connect() raise
    [PortForwardingError] with the exit code and the rest of the output; so
    does the end of the output of a child that has exited, with no lines
    then.  The child is untracked and reaped in both cases. *)
Theorem connect_empty_read child st blanks :
  compiled (self st) <> None ->
  forallb blank_alive blanks = true ->
  (forall lines,
     connect (with_lines (blanks ++ lines) child) st
     = connect (with_lines lines child) st) /\
  (prog_exit child = None -> connect (with_lines blanks child) st = Blocks) /\
  (forall raw rc rest,
     strip raw = "" ->
     exists st',
       connect (with_lines (blanks ++ (raw, Some rc) :: rest) child) st
       = Raises (PortForwardingError (KubectlExited rc (map fst rest))) st' /\
       subprocess (self st') = None /\
       exists p, untracked st' = p :: released st /\ pid p = prog_pid child /\
                 returncode p = Some rc) /\
  (forall rc,
     prog_exit child = Some rc ->
     exists st',
       connect (with_lines blanks child) st
       = Raises (PortForwardingError (KubectlExited rc [])) st' /\
       subprocess (self st') = None /\
       exists p, untracked st' = p :: released st /\ pid p = prog_pid child /\
                 returncode p = Some rc).
Proof.
  intros Hc Hb. destruct (compiled (self st)) as [re|] eqn:Hre; [clear Hc|contradiction].
  split; [intros lines; now apply connect_skips_blank_reads|]. split; [|split].
  - intros Hexit.
    rewrite <- (app_nil_r blanks), (connect_skips_blank_reads _ _ _ _ Hb).
    rewrite connect_unfold, Hre. cbn. rewrite Hexit. reflexivity.
  - intros raw rc rest Hraw.
    rewrite (connect_skips_blank_reads _ _ _ _ Hb).
    eapply (connect_exit_seen (with_lines _ child) st re); [exact Hre|].
    cbn [prog_lines with_lines]. rewrite handshake_loop_cons, Hraw. reflexivity.
  - intros rc Hexit.
    rewrite <- (app_nil_r blanks), (connect_skips_blank_reads _ _ _ _ Hb).
    eapply (connect_exit_seen (with_lines _ child) st re); [exact Hre|].
    cbn. rewrite Hexit. reflexivity.
Qed.

(** The spec's case, exit code 1 before any handshake line, and the two
    other ways an empty read can go. *)
Lemma connect_empty_read_witness :
  compiled (self (fresh Samples.any_port)) <> None /\
  forallb blank_alive [(Samples.newline, None)] = true /\
  (prog_exit Samples.exits_early = Some 1 /\
   exists st',
     connect (with_lines [(Samples.newline, None)] Samples.exits_early)
             (fresh Samples.any_port)
     = Raises (PortForwardingError (KubectlExited 1 [])) st' /\
     subprocess (self st') = None /\
     exists p, untracked st' = p :: released (fresh Samples.any_port) /\
               pid p = prog_pid Samples.exits_early /\ returncode p = Some 1) /\
  (strip Samples.newline = "" /\
   exists st',
     connect (with_lines [(Samples.newline, None); (Samples.newline, Some 1);
                          (Samples.garbage_line, Some 1)] Samples.exits_early)
             (fresh Samples.any_port)
     = Raises (PortForwardingError (KubectlExited 1 [Samples.garbage_line])) st' /\
     subprocess (self st') = None /\
     exists p, untracked st' = p :: released (fresh Samples.any_port) /\
               pid p = prog_pid Samples.exits_early /\ returncode p = Some 1) /\
  (prog_exit Samples.forwarding = None /\
   connect (with_lines [(Samples.newline, None)] Samples.forwarding)
           (fresh Samples.any_port)
   = Blocks).
Proof.
  assert (Hc : compiled (self (fresh Samples.any_port)) <> None) by discriminate.
  split; [exact Hc|]. split; [reflexivity|]. split; [|split].
  - split; [reflexivity|].
    apply (proj2 (proj2 (proj2
             (connect_empty_read Samples.exits_early (fresh Samples.any_port)
                [(Samples.newline, None)] Hc eq_refl)))).
    reflexivity.
  - split; [reflexivity|].
    apply (proj1 (proj2 (proj2
             (connect_empty_read Samples.exits_early (fresh Samples.any_port)
                [(Samples.newline, None)] Hc eq_refl)))
             Samples.newline 1 [(Samples.garbage_line, Some 1)]).
    reflexivity.
  - split; [reflexivity|].
    apply (proj1 (proj2
             (connect_empty_read Samples.forwarding (fresh Samples.any_port)
                [(Samples.newline, None)] Hc eq_refl))).
    reflexivity.
Defined.

Lemma local_port_re_nonempty s re :
  local_port_re s = Some re -> re_search re "" = None.
Proof.
  unfold local_port_re.
  change ("Forwarding from " ++ local_address s ++ ":")
    with (String "F" ("orwarding from " ++ local_address s ++ ":")).
  cbn [re_of_text].
  destruct (re_of_text ("orwarding from " ++ local_address s ++ ":")) as [before|];
    [|discriminate].
  cbn [Ascii.eqb Bool.eqb is_meta existsb list_ascii_of_string orb].
  destruct (re_of_text (" -> " ++ str (remote_port s))) as [after|]; [|discriminate].
  intros [= <-]. reflexivity.
Qed.

Lemma validate_any_port re s output :
  truthy (local_port s) = false ->
  validate re s output =
    match re_search re output with
    | None => Raise (PortForwardingError (UnexpectedOutput output))
    | Some group1 => Ok (set_local_port (Some (int group1)) s)
    end.
Proof. unfold validate. intros ->. reflexivity. Qed.

Lemma validate_fixed_port re s output :
  truthy (local_port s) = true ->
  validate re s output =
    if String.eqb output (local_port_expected s) then Ok s
    else Raise (PortForwardingError (UnexpectedOutput output)).
Proof.
  unfold validate. intros ->. destruct (String.eqb output _); reflexivity.
Qed.

(** The first read that does not strip to nothing decides the call. *)
Lemma connect_first_line child st re blanks raw polled rest :
  compiled (self st) = Some re ->
  forallb blank_alive blanks = true ->
  strip raw <> "" ->
  connect (with_lines (blanks ++ (raw, polled) :: rest) child) st =
    match validate re (self st) (strip raw) with
    | Ok s' =>
        Returns (emit [LogInfo (strip raw)]
                   (handshaking child st s'
                      (set_stdout rest (start (cmd (self st)) child))))
    | Raise e =>
        on_exception e
          (handshaking child st (self st)
             (set_stdout rest (start (cmd (self st)) child)))
    end.
Proof.
  intros Hre Hb Hne.
  rewrite (connect_skips_blank_reads _ _ _ _ Hb), connect_unfold, Hre.
  cbn [prog_lines with_lines]. rewrite (handshake_loop_line _ _ _ _ _ _ Hne).
  destruct (validate re (self st) (strip raw)); reflexivity.
Qed.

(** A first line in the documented form, for any address without regex
    syntax of its own and any port digits, is accepted and gives the port. *)
Lemma connect_accepts_handshake_line child st blanks raw polled rest digits :
  truthy (local_port (self st)) = false ->
  is_Some (re_of_text (local_address (self st))) ->
  forallb blank_alive blanks = true ->
  digits <> "" ->
  all_digits digits = true ->
  strip raw = "Forwarding from " ++ local_address (self st) ++ ":" ++ digits
                ++ " -> " ++ str (remote_port (self st)) ->
  exists st',
    connect (with_lines (blanks ++ (raw, polled) :: rest) child) st = Returns st' /\
    local_port (self st') = Some (int digits) /\
    tracked st' = true.
Proof.
  intros Hfalsy Hplain Hb Hne Hd Hraw.
  destruct (local_port_re_plain _ Hplain) as [re Hre].
  assert (Hc : compiled (self st) = Some re) by (unfold compiled; now rewrite Hfalsy).
  assert (Hline : strip raw <> "") by (rewrite Hraw; discriminate).
  rewrite (connect_first_line child st re blanks raw polled rest Hc Hb Hline).
  rewrite (validate_any_port _ _ _ Hfalsy), Hraw,
    (search_handshake_line _ _ _ Hre Hne Hd).
  eexists. split; [reflexivity|]. split; reflexivity.
Qed.

(** The pattern is searched for, not matched against the whole line, and a
    dot of the address stands for any character. *)
Lemma search_is_lenient :
  re_search Samples.any_port_re "I0511 Forwarding from 127-0-0-1:54321 -> 80809"
  = Some "54321".
Proof. reflexivity. Qed.

(** C7.  With no local port asked for, the first line that is received is
    searched for the pattern.  When it matches, the digits of the group
    become the local port of the handle and connect() returns with the
    process tracked; when it does not, the loop raises
    [PortForwardingError] on that line, which is what connect() lets
    through once close() has run. *)
Theorem connect_resolves_local_port child st re blanks raw polled rest :
  truthy (local_port (self st)) = false ->
  local_port_re (self st) = Some re ->
  forallb blank_alive blanks = true ->
  let lines := (blanks ++ (raw, polled) :: rest)%list in
  let p := set_stdout rest (start (cmd (self st)) child) in
  (forall digits,
     re_search re (strip raw) = Some digits ->
     connect (with_lines lines child) st
     = Returns (emit [LogInfo (strip raw)]
                  (handshaking child st
                     (set_local_port (Some (int digits)) (self st)) p))) /\
  (strip raw <> "" ->
   re_search re (strip raw) = None ->
     handshake_loop re (self st) (start (cmd (self st)) child) lines
     = LoopRaises (PortForwardingError (UnexpectedOutput (strip raw))) p /\
     connect (with_lines lines child) st
     = on_exception (PortForwardingError (UnexpectedOutput (strip raw)))
         (handshaking child st (self st) p) /\
     (prog_dies_when_killed child = true ->
      exists st',
        connect (with_lines lines child) st
        = Raises (PortForwardingError (UnexpectedOutput (strip raw))) st' /\
        subprocess (self st') = None)).
Proof.
  intros Hfalsy Hre Hb lines p.
  assert (Hc : compiled (self st) = Some re) by (unfold compiled; now rewrite Hfalsy).
  assert (Hconn : strip raw <> "" ->
            connect (with_lines lines child) st =
            match re_search re (strip raw) with
            | Some group1 =>
                Returns (emit [LogInfo (strip raw)]
                           (handshaking child st
                              (set_local_port (Some (int group1)) (self st)) p))
            | None =>
                on_exception (PortForwardingError (UnexpectedOutput (strip raw)))
                  (handshaking child st (self st) p)
            end).
  { intros Hne. subst lines.
    rewrite (connect_first_line child st re blanks raw polled rest Hc Hb Hne).
    rewrite (validate_any_port _ _ _ Hfalsy).
    destruct (re_search re (strip raw)); reflexivity. }
  split.
  - intros digits Hm.
    assert (Hne : strip raw <> "").
    { intros Heq. rewrite Heq, (local_port_re_nonempty _ _ Hre) in Hm. discriminate. }
    rewrite (Hconn Hne), Hm. reflexivity.
  - intros Hne Hm. specialize (Hconn Hne). rewrite Hm in Hconn. split; [|split].
    + subst lines. rewrite (handshake_loop_skip _ _ _ _ _ Hb),
        (handshake_loop_line _ _ _ _ _ _ Hne), (validate_any_port _ _ _ Hfalsy), Hm.
      reflexivity.
    + exact Hconn.
    + intros Hd. rewrite Hconn.
      destruct (on_exception_gone (PortForwardingError (UnexpectedOutput (strip raw)))
                  (handshaking child st (self st) p) p eq_refl)
        as (st2 & Heq & Hnone & _).
      { unfold gone_after_kill. cbn. exact Hd. }
      exists st2. split; assumption.
Qed.

(** The spec's case, a child that reports port 54321 for remote port 8080,
    and a child that prints something else. *)
Lemma connect_resolves_local_port_witness :
  truthy (local_port (self (fresh Samples.any_port))) = false /\
  local_port_re (self (fresh Samples.any_port)) = Some Samples.any_port_re /\
  (re_search Samples.any_port_re (strip Samples.handshake_54321) = Some "54321" /\
   connect (with_lines [(Samples.handshake_54321, None)] Samples.forwarding)
           (fresh Samples.any_port)
   = Returns Samples.ready_54321 /\
   local_port (self Samples.ready_54321) = Some 54321) /\
  (strip Samples.garbage_line <> "" /\
   re_search Samples.any_port_re (strip Samples.garbage_line) = None /\
   prog_dies_when_killed Samples.forwarding = true /\
   exists st',
     connect (with_lines [(Samples.garbage_line, None)] Samples.forwarding)
             (fresh Samples.any_port)
     = Raises (PortForwardingError (UnexpectedOutput (strip Samples.garbage_line))) st' /\
     subprocess (self st') = None).
Proof.
  assert (Hne : strip Samples.garbage_line <> "") by discriminate.
  split; [reflexivity|]. split; [reflexivity|]. split.
  - split; [reflexivity|]. split; [|reflexivity].
    exact (proj1 (connect_resolves_local_port Samples.forwarding
                    (fresh Samples.any_port) Samples.any_port_re []
                    Samples.handshake_54321 None [] eq_refl eq_refl eq_refl)
                 "54321" eq_refl).
  - split; [exact Hne|]. split; [reflexivity|]. split; [reflexivity|].
    exact (proj2 (proj2 (proj2 (connect_resolves_local_port Samples.forwarding
                    (fresh Samples.any_port) Samples.any_port_re []
                    Samples.garbage_line None [] eq_refl eq_refl eq_refl)
                 Hne eq_refl)) eq_refl).
Defined.

(** C8.  With a fixed local port, the first line that is received must be
    [Forwarding from <address>:<port> -> <remote port>] to the letter: then
    connect() returns, the port unchanged and the process tracked.  Any
    other line makes the loop raise [PortForwardingError] right there,
    whatever follows it in the output, and that is what connect() lets
    through once close() has run. *)
Theorem connect_fixed_port_verbatim child st lp blanks raw polled rest :
  local_port (self st) = Some lp ->
  lp <> 0 ->
  forallb blank_alive blanks = true ->
  strip raw <> "" ->
  let expected := "Forwarding from " ++ local_address (self st) ++ ":" ++ str lp
                    ++ " -> " ++ str (remote_port (self st)) in
  let lines := (blanks ++ (raw, polled) :: rest)%list in
  let p := set_stdout rest (start (cmd (self st)) child) in
  (strip raw = expected ->
     connect (with_lines lines child) st
     = Returns (emit [LogInfo expected] (handshaking child st (self st) p))) /\
  (strip raw <> expected ->
     (forall re,
        handshake_loop re (self st) (start (cmd (self st)) child) lines
        = LoopRaises (PortForwardingError (UnexpectedOutput (strip raw))) p) /\
     connect (with_lines lines child) st
     = on_exception (PortForwardingError (UnexpectedOutput (strip raw)))
         (handshaking child st (self st) p) /\
     (prog_dies_when_killed child = true ->
      exists st',
        connect (with_lines lines child) st
        = Raises (PortForwardingError (UnexpectedOutput (strip raw))) st' /\
        subprocess (self st') = None)).
Proof.
  intros Hlp Hnz Hb Hne expected lines p.
  assert (Ht : truthy (local_port (self st)) = true).
  { rewrite Hlp. cbn. now apply negb_true_iff, Z.eqb_neq. }
  assert (Hexp : local_port_expected (self st) = expected).
  { unfold local_port_expected. now rewrite Hlp. }
  assert (Hc : compiled (self st) = Some []) by (unfold compiled; now rewrite Ht).
  pose proof (connect_first_line child st [] blanks raw polled rest Hc Hb Hne) as Hconn.
  rewrite (validate_fixed_port _ _ _ Ht), Hexp in Hconn.
  split.
  - intros Heq. subst lines. rewrite Hconn, Heq, String.eqb_refl. reflexivity.
  - intros Hneq. apply String.eqb_neq in Hneq. rewrite Hneq in Hconn.
    split; [|split].
    + intros re. subst lines. rewrite (handshake_loop_skip _ _ _ _ _ Hb),
        (handshake_loop_line _ _ _ _ _ _ Hne), (validate_fixed_port _ _ _ Ht), Hexp, Hneq.
      reflexivity.
    + exact Hconn.
    + intros Hd. subst lines. rewrite Hconn.
      destruct (on_exception_gone (PortForwardingError (UnexpectedOutput (strip raw)))
                  (handshaking child st (self st) p) p eq_refl)
        as (st2 & Heq & Hnone & _).
      { unfold gone_after_kill. cbn. exact Hd. }
      exists st2. split; assumption.
Qed.

Lemma connect_fixed_port_verbatim_witness :
  local_port (self (fresh Samples.fixed_port)) = Some 9000 /\
  9000 <> 0 /\
  forallb blank_alive [(Samples.newline, None)] = true /\
  (strip Samples.handshake_9000 <> "" /\
   strip Samples.handshake_9000
   = "Forwarding from 127.0.0.1:" ++ str 9000 ++ " -> " ++ str 8080 /\
   connect (with_lines [(Samples.newline, None); (Samples.handshake_9000, None)]
                       Samples.forwarding)
           (fresh Samples.fixed_port)
   = Returns Samples.ready_9000) /\
  (strip Samples.garbage_line <> "" /\
   strip Samples.garbage_line
   <> "Forwarding from 127.0.0.1:" ++ str 9000 ++ " -> " ++ str 8080 /\
   prog_dies_when_killed Samples.forwarding = true /\
   exists st',
     connect (with_lines [(Samples.newline, None); (Samples.garbage_line, None);
                          (Samples.handshake_9000, None)] Samples.forwarding)
             (fresh Samples.fixed_port)
     = Raises (PortForwardingError (UnexpectedOutput (strip Samples.garbage_line))) st' /\
     subprocess (self st') = None).
Proof.
  assert (H0 : strip Samples.handshake_9000 <> "") by discriminate.
  assert (H1 : strip Samples.garbage_line <> "") by discriminate.
  assert (H2 : strip Samples.garbage_line
               <> "Forwarding from 127.0.0.1:" ++ str 9000 ++ " -> " ++ str 8080)
    by discriminate.
  assert (Hnz : 9000 <> 0) by discriminate.
  split; [reflexivity|]. split; [exact Hnz|]. split; [reflexivity|]. split.
  - split; [exact H0|]. split; [reflexivity|].
    exact (proj1 (connect_fixed_port_verbatim Samples.forwarding
                    (fresh Samples.fixed_port) 9000 [(Samples.newline, None)]
                    Samples.handshake_9000 None [] eq_refl Hnz eq_refl H0)
                 eq_refl).
  - split; [exact H1|]. split; [exact H2|]. split; [reflexivity|].
    exact (proj2 (proj2 (proj2 (connect_fixed_port_verbatim Samples.forwarding
                    (fresh Samples.fixed_port) 9000 [(Samples.newline, None)]
                    Samples.garbage_line None [(Samples.handshake_9000, None)]
                    eq_refl Hnz eq_refl H1) H2)) eq_refl).
Defined.

(** *** Port 0 *)

Lemma close_port_to lp st :
  close (port_to lp st) = map_outcome (port_to lp) (close st).
Proof.
  unfold close. cbn. destruct (subprocess (self st)) as [p|]; [|reflexivity].
  destruct (communicate (kill p)) as [[out p']|e]; reflexivity.
Qed.

Lemma close_keeps_local_port st :
  match close st with
  | Returns st' | Raises _ st' => local_port (self st') = local_port (self st)
  | _ => True
  end.
Proof.
  unfold close. destruct (subprocess (self st)) as [p|]; [|reflexivity].
  destruct (communicate (kill p)) as [[out p']|e]; reflexivity.
Qed.

Lemma validate_zero_port re s output :
  local_port s = Some 0 ->
  validate re s output = validate re (set_local_port None s) output.
Proof.
  unfold validate. intros ->. cbn. destruct (re_search re output); reflexivity.
Qed.

Lemma handshake_loop_zero_port re s p l :
  local_port s = Some 0 ->
  handshake_loop re s p l = handshake_loop re (set_local_port None s) p l.
Proof.
  intros H0. induction l as [|[raw polled] rest IH]; [reflexivity|].
  rewrite !handshake_loop_cons, IH, (validate_zero_port _ _ _ H0). reflexivity.
Qed.

Lemma handshake_loop_break_port re s p l o s' p' :
  truthy (local_port s) = false ->
  handshake_loop re s p l = Break o s' p' ->
  exists digits, re_search re o = Some digits /\ s' = set_local_port (Some (int digits)) s.
Proof.
  intros Hf. induction l as [|[raw polled] rest IH].
  - cbn. destruct (exit_at_eof p); discriminate.
  - rewrite handshake_loop_cons. destruct (String.eqb (strip raw) "").
    + destruct polled; [discriminate|exact IH].
    + rewrite (validate_any_port _ _ _ Hf).
      destruct (re_search re (strip raw)) as [d|] eqn:E; [|discriminate].
      intros [= <- <- <-]. eauto.
Qed.

Lemma close_spawns_nothing st st' :
  Views.final_state (close st) = Some st' ->
  exists new, events st' = (events st ++ new)%list /\
              forall q c, ~ In (Spawn q c) new.
Proof.
  destruct (subprocess (self st)) as [p|] eqn:Hp.
  - destruct (gone_after_kill p) eqn:Hg.
    + rewrite (close_gone st p Hp Hg). intros [= <-]. cbn.
      eexists. split; [reflexivity|].
      intros q c [H|[H|[H|[H|[]]]]]; discriminate.
    + rewrite (close_survived st p Hp Hg). intros [= <-]. cbn.
      eexists. split; [reflexivity|].
      intros q c [H|[H|[]]]; discriminate.
  - rewrite (close_untracked st Hp). intros [= <-].
    exists []. split; [now rewrite app_nil_r|]. intros q c [].
Qed.

(** Every connect() that ends has started the command of the handle, once. *)
Lemma connect_spawns child st st' :
  Views.final_state (connect child st) = Some st' ->
  exists tl, events st'
             = (events st ++ Spawn (prog_pid child) (cmd (self st)) :: tl)%list /\
             forall q c, ~ In (Spawn q c) tl.
Proof.
  rewrite connect_unfold.
  destruct (compiled (self st)) as [re|]; [|discriminate].
  destruct (handshake_loop re (self st) _ _) as [o s' p'|e p'|] eqn:Hloop.
  - intros [= <-]. cbn. exists [LogInfo o]. split.
    + rewrite <- app_assoc. reflexivity.
    + intros q c [H|[]]. discriminate.
  - intros H.
    assert (Hf : Views.final_state (close (handshaking child st (self st) p')) = Some st').
    { unfold on_exception in H. destruct (close _); cbn in *; congruence. }
    apply close_spawns_nothing in Hf as (new & Hev & Hnew).
    exists new. split; [|exact Hnew].
    rewrite Hev. cbn. rewrite <- app_assoc. reflexivity.
  - discriminate.
Qed.

Lemma connect_zero_port child s :
  local_port s = Some 0 ->
  connect child (fresh s)
  = map_outcome (default_port (Some 0))
                (connect child (fresh (set_local_port None s))).
Proof.
  intros H0. rewrite !connect_unfold.
  assert (Hf : truthy (local_port s) = false) by now rewrite H0.
  change (compiled (self (fresh (set_local_port None s)))) with (local_port_re s).
  replace (compiled (self (fresh s))) with (local_port_re s)
    by (unfold compiled; cbn [self fresh]; now rewrite Hf).
  change (self (fresh s)) with s.
  change (self (fresh (set_local_port None s))) with (set_local_port None s).
  assert (Hcmd : cmd s = cmd (set_local_port None s)).
  { unfold cmd, port_mapping. cbn [local_port set_local_port context namespace
      destination remote_port local_address]. now rewrite Hf. }
  rewrite <- Hcmd.
  destruct (local_port_re s) as [re|]; [|reflexivity].
  rewrite (handshake_loop_zero_port re s _ _ H0).
  destruct (handshake_loop re (set_local_port None s) _ _)
    as [o s' p'|e p'|] eqn:Hloop; [| |reflexivity].
  - apply handshake_loop_break_port in Hloop as (d & _ & ->); [|reflexivity].
    cbn. unfold default_port, handshaking, emit, fresh. cbn. rewrite Hcmd. reflexivity.
  - assert (Hst : handshaking child (fresh s) s p'
                  = port_to (Some 0)
                      (handshaking child (fresh (set_local_port None s))
                                   (set_local_port None s) p')).
    { unfold port_to, handshaking, with_self. cbn. rewrite <- Hcmd.
      destruct s; cbn in *. now subst. }
    rewrite Hst. unfold on_exception. rewrite close_port_to.
    pose proof (close_keeps_local_port
                  (handshaking child (fresh (set_local_port None s))
                               (set_local_port None s) p')) as Hk.
    destruct (close (handshaking child (fresh (set_local_port None s))
                                 (set_local_port None s) p')) as [st'|e' st'| |];
      cbn in *; try reflexivity.
    + unfold default_port. rewrite Hk. reflexivity.
    + unfold default_port. rewrite Hk. reflexivity.
Qed.

(** C10.  A handle built with local port 0 is treated as one built with no
    local port.  The command that connect() starts is kubectl with the port
    mapping [:<remote port>] as its last argument, and every connect() that
    ends has started exactly that command.  The first read that is not
    blank is searched with the digits pattern, not compared with the text
    for port 0: on a match connect() returns with the port read from the
    line, every line "Forwarding from <address>:<digits> -> <remote port>"
    being a match whatever the digits; on a miss the loop raises
    [PortForwardingError].  Whatever the child does, connect() ends as it
    does for the handle built with no port, the port field reading 0
    instead of None where no port was taken.  An empty bind address gives
    the default 127.0.0.1, in the handle and in the command, as no address
    does. *)
Theorem zero_port_means_any_port ctx ns dest rp lp addr child re
    blanks raw polled rest :
  let zero := __init__ ctx ns dest rp (Some 0) addr in
  let none := __init__ ctx ns dest rp None addr in
  let command :=
    [ "kubectl"; "--context"; ctx; "--namespace"; ns;
      "port-forward"; "--address"; or_default addr; dest; ":" ++ str rp ] in
  let lines := (blanks ++ (raw, polled) :: rest)%list in
  let p := {| pid := prog_pid child; args := command; stdout := rest;
              exit_at_eof := prog_exit child;
              dies_when_killed := prog_dies_when_killed child;
              returncode := None |} in
  let tracking (port : option Z) :=
    {| context := ctx; namespace := ns; destination := dest;
       remote_port := rp; local_address := or_default addr;
       local_port := port; subprocess := Some p |} in
  local_port_re zero = Some re ->
  forallb blank_alive blanks = true ->
  strip raw <> "" ->
  (* the command *)
  cmd zero = command /\
  (forall any_child st',
     Views.final_state (connect any_child (fresh zero)) = Some st' ->
     exists tl, events st' = Spawn (prog_pid any_child) command :: tl) /\
  (* the line is searched with the pattern *)
  (forall digits,
     re_search re (strip raw) = Some digits ->
     connect (with_lines lines child) (fresh zero)
     = Returns {| self := tracking (Some (int digits));
                  untracked := [];
                  events := [Spawn (prog_pid child) command;
                             LogInfo (strip raw)] |}) /\
  (forall digits,
     digits <> "" -> all_digits digits = true ->
     strip raw = "Forwarding from " ++ or_default addr ++ ":" ++ digits
                   ++ " -> " ++ str rp ->
     exists st', connect (with_lines lines child) (fresh zero) = Returns st' /\
                 local_port (self st') = Some (int digits)) /\
  (re_search re (strip raw) = None ->
   connect (with_lines lines child) (fresh zero)
   = on_exception (PortForwardingError (UnexpectedOutput (strip raw)))
       {| self := tracking (Some 0);
          untracked := [];
          events := [Spawn (prog_pid child) command] |}) /\
  (* as with no port at all *)
  truthy (local_port zero) = false /\
  (forall any_child,
     connect any_child (fresh zero)
     = map_outcome (default_port (Some 0)) (connect any_child (fresh none))) /\
  (* the empty address *)
  __init__ ctx ns dest rp lp (Some "") = __init__ ctx ns dest rp lp None /\
  local_address (__init__ ctx ns dest rp lp (Some "")) = "127.0.0.1" /\
  cmd (__init__ ctx ns dest rp (Some 0) (Some ""))
  = [ "kubectl"; "--context"; ctx; "--namespace"; ns;
      "port-forward"; "--address"; "127.0.0.1"; dest; ":" ++ str rp ].
Proof.
  intros zero none command lines p tracking Hre Hb Hne.
  assert (Hc : compiled (self (fresh zero)) = Some re) by exact Hre.
  assert (Hmatch : forall digits,
     re_search re (strip raw) = Some digits ->
     connect (with_lines lines child) (fresh zero)
     = Returns {| self := tracking (Some (int digits));
                  untracked := [];
                  events := [Spawn (prog_pid child) command;
                             LogInfo (strip raw)] |}).
  { intros digits Hs. subst lines.
    rewrite (connect_first_line child (fresh zero) re blanks raw polled rest Hc Hb Hne).
    rewrite (validate_any_port re (self (fresh zero)) _ eq_refl), Hs.
    reflexivity. }
  split; [reflexivity|].
  split.
  { intros any_child st' Hf. apply connect_spawns in Hf as (tl & Hev & _).
    exists tl. exact Hev. }
  split; [exact Hmatch|].
  split.
  { intros digits Hd1 Hd2 Hraw. eexists. split.
    - apply Hmatch. rewrite Hraw.
      exact (search_handshake_line zero re digits Hre Hd1 Hd2).
    - reflexivity. }
  split.
  { intros Hs. subst lines.
    rewrite (connect_first_line child (fresh zero) re blanks raw polled rest Hc Hb Hne).
    rewrite (validate_any_port re (self (fresh zero)) _ eq_refl), Hs.
    reflexivity. }
  split; [reflexivity|].
  split; [intros any_child; exact (connect_zero_port any_child zero eq_refl)|].
  split; [reflexivity|]. split; reflexivity.
Qed.

Lemma zero_port_means_any_port_witness :
  local_port_re Cases.zero_port = Some Samples.any_port_re /\
  forallb blank_alive [(Samples.newline, None)] = true /\
  strip Samples.handshake_54321 <> "" /\
  cmd Cases.zero_port
  = [ "kubectl"; "--context"; "gke_test"; "--namespace"; "psm";
      "port-forward"; "--address"; "127.0.0.1"; "pod/psm-grpc-server";
      ":8080" ] /\
  connect (with_lines [(Samples.newline, None); (Samples.handshake_54321, None)]
                      Samples.forwarding)
          (fresh Cases.zero_port)
  = Returns Cases.ready_zero /\
  local_port (self Cases.ready_zero) = Some 54321 /\
  events Cases.ready_zero
  = [ Spawn 4242 [ "kubectl"; "--context"; "gke_test"; "--namespace"; "psm";
                   "port-forward"; "--address"; "127.0.0.1";
                   "pod/psm-grpc-server"; ":8080" ];
      LogInfo "Forwarding from 127.0.0.1:54321 -> 8080" ].
Proof.
  assert (Hne : strip Samples.handshake_54321 <> "") by discriminate.
  split; [reflexivity|]. split; [reflexivity|]. split; [exact Hne|].
  split.
  - exact (proj1 (zero_port_means_any_port "gke_test" "psm" "pod/psm-grpc-server"
                    8080 None (Some "") Samples.forwarding Samples.any_port_re
                    [(Samples.newline, None)] Samples.handshake_54321 None []
                    eq_refl eq_refl Hne)).
  - split; [|split; reflexivity].
    exact (proj1 (proj2 (proj2 (zero_port_means_any_port "gke_test" "psm"
                    "pod/psm-grpc-server" 8080 None (Some "") Samples.forwarding
                    Samples.any_port_re [(Samples.newline, None)]
                    Samples.handshake_54321 None [] eq_refl eq_refl Hne)))
                 "54321" eq_refl).
Defined.

(** * Further properties *)

Import Views.

(** ** The read loop, the pattern and the decimal text of a port *)


Lemma handshake_loop_forever re s p l :
  handshake_loop re s p l = Forever <->
  forallb blank_alive l = true /\ exit_at_eof p = None.
Proof.
  induction l as [|[raw polled] rest IH].
  - cbn. destruct (exit_at_eof p); split; try discriminate; try tauto.
    intros [_ H]; discriminate.
  - rewrite handshake_loop_cons. cbn [forallb]. unfold blank_alive at 1. cbn [fst snd].
    destruct (String.eqb (strip raw) "").
    + destruct polled; cbn; [split; [discriminate|intros [H _]; discriminate]|exact IH].
    + cbn. destruct (validate re s (strip raw)); split; try discriminate;
        intros [H _]; discriminate.
Qed.

Lemma handshake_loop_break_inv re s p l o s' p' :
  handshake_loop re s p l = Break o s' p' ->
  exists blanks raw polled rest,
    l = (blanks ++ (raw, polled) :: rest)%list /\
    forallb blank_alive blanks = true /\
    strip raw = o /\ o <> "" /\
    validate re s o = Ok s' /\
    p' = set_stdout rest p.
Proof.
  induction l as [|[raw polled] rest IH].
  - cbn. destruct (exit_at_eof p); discriminate.
  - rewrite handshake_loop_cons.
    destruct (String.eqb_spec (strip raw) "") as [Hb|Hb].
    + destruct polled; [discriminate|]. intros H.
      destruct (IH H) as (blanks & raw' & polled' & rest' & -> & Hbl & Ho & Hne & Hv & Hp).
      exists ((raw, None) :: blanks), raw', polled', rest'.
      repeat split; try assumption.
      cbn [forallb]. rewrite Hbl. unfold blank_alive. cbn [fst snd]. rewrite Hb. reflexivity.
    + destruct (validate re s (strip raw)) as [s''|e] eqn:Hv; [|discriminate].
      intros [= <- <- <-]. exists [], raw, polled, rest. repeat split; assumption.
Qed.

(** X5.  connect() never returns exactly when the child prints nothing but
    lines that strip to nothing, is found running after each of them, and
    never exits: the loop has no limit of its own on such reads.  (For a
    handle whose pattern is in the modelled fragment.) *)
Theorem connect_blocks_iff child st :
  connect child st = Blocks <->
  compiled (self st) <> None /\
  forallb blank_alive (prog_lines child) = true /\
  prog_exit child = None.
Proof.
  rewrite connect_unfold.
  destruct (compiled (self st)) as [re|]; [|split; [discriminate|intros [H _]; congruence]].
  destruct (handshake_loop re (self st) _ _) as [o s' p'|e p'|] eqn:Hloop.
  - split; [discriminate|]. intros (_ & Hb & He).
    assert (handshake_loop re (self st) (start (cmd (self st)) child) (prog_lines child) = Forever)
      by (apply handshake_loop_forever; split; assumption).
    congruence.
  - split.
    + unfold on_exception. intros H.
      pose proof (close_never_blocks (handshaking child st (self st) p')) as [Hnb _].
      destruct (close (handshaking child st (self st) p')); try discriminate. congruence.
    + intros (_ & Hb & He).
      assert (handshake_loop re (self st) (start (cmd (self st)) child) (prog_lines child) = Forever)
        by (apply handshake_loop_forever; split; assumption).
      congruence.
  - apply handshake_loop_forever in Hloop as [Hb He]. split; [|reflexivity].
    intros _. repeat split; [discriminate|assumption|exact He].
Qed.


Lemma take_digits k s :
  (1 <= k)%nat -> (k <= digit_run s)%nat ->
  take k s <> "" /\ all_digits (take k s) = true /\ s = take k s ++ drop k s.
Proof.
  revert s. induction k as [|k IH]; intros s Hk Hrun; [lia|].
  destruct s as [|c s]; [cbn in Hrun; lia|].
  cbn in Hrun. destruct (isdigit c) eqn:Hc; [|lia].
  cbn [take drop]. split; [discriminate|].
  destruct k as [|k'].
  - cbn. rewrite Hc. split; [reflexivity|]. destruct s; reflexivity.
  - destruct (IH s ltac:(lia) ltac:(lia)) as (_ & Hd & Hs).
    cbn [all_digits]. rewrite Hc, Hd. split; [reflexivity|].
    rewrite append_cons. f_equal. exact Hs.
Qed.

Lemma longest_first_some k try g :
  longest_first k try = Some g ->
  exists j, (1 <= j <= k)%nat /\ try j = Some g.
Proof.
  induction k as [|k IH]; [discriminate|]. cbn.
  destruct (try (S k)) as [g'|] eqn:E.
  - intros [= <-]. exists (S k). split; [lia|exact E].
  - intros H. destruct (IH H) as (j & Hj & Hg). exists j. split; [lia|exact Hg].
Qed.

(** What a match of [before ++ group :: after] at the start of [s] means. *)
Lemma match_here_group before after s g :
  forallb (fun a => negb (is_group a)) before = true ->
  match_here (before ++ DigitsGroup :: after)%list s = Some g ->
  exists a b,
    s = a ++ g ++ b /\
    String.length a = List.length before /\
    g <> "" /\ all_digits g = true /\
    is_Some (match_here after b).
Proof.
  revert s. induction before as [|x before IH]; intros s Hng.
  - cbn [app match_here]. intros H.
    apply longest_first_some in H as (j & Hj & Htry).
    destruct (match_here after (drop j s)) as [g0|] eqn:Ha; [|discriminate].
    injection Htry as <-.
    destruct (take_digits j s) as (Hne & Hd & Hs); [lia..|].
    exists "", (drop j s). split; [exact Hs|]. split; [reflexivity|].
    split; [exact Hne|]. split; [exact Hd|]. exists g0. exact Ha.
  - cbn [forallb] in Hng. apply andb_prop in Hng as [Hx Hng].
    destruct x; [| |discriminate]; cbn [app match_here];
      (destruct s as [|c' s]; [discriminate|]).
    + destruct (Ascii.eqb_spec c c') as [->|]; [|discriminate]. intros H.
      destruct (IH s Hng H) as (a & b & -> & Hl & Hrest).
      exists (String c' a), b. repeat split; try apply Hrest. cbn. now rewrite Hl.
    + destruct (Ascii.eqb c' "010"); [discriminate|]. intros H.
      destruct (IH s Hng H) as (a & b & -> & Hl & Hrest).
      exists (String c' a), b. repeat split; try apply Hrest. cbn. now rewrite Hl.
Qed.

(** Literal atoms match only their own text. *)
Lemma match_here_literal t : forall b,
  is_Some (match_here (map Lit (list_ascii_of_string t)) b) ->
  exists post, b = t ++ post.
Proof.
  induction t as [|c t IH]; intros b.
  - intros _. exists b. reflexivity.
  - cbn. destruct b as [|c' b]; [intros [? [=]]|].
    destruct (Ascii.eqb_spec c c') as [->|]; [|intros [? [=]]].
    intros H. destruct (IH b H) as [post ->]. exists post. reflexivity.
Qed.

Lemma re_search_sound r s g :
  re_search r s = Some g ->
  exists pre suf, s = pre ++ suf /\ match_here r suf = Some g.
Proof.
  induction s as [|c s IH].
  - cbn. destruct (match_here r "") eqn:E; [|discriminate].
    intros [= <-]. exists "", "". split; [reflexivity|exact E].
  - cbn. destruct (match_here r (String c s)) eqn:E.
    + intros [= <-]. exists "", (String c s). split; [reflexivity|exact E].
    + intros H. destruct (IH H) as (pre & suf & -> & Hm).
      exists (String c pre), suf. split; [reflexivity|exact Hm].
Qed.

(** Atoms of a text have no group; a text without dot gives literals only. *)
Lemma re_of_text_no_group t : forall r,
  re_of_text t = Some r -> forallb (fun a => negb (is_group a)) r = true.
Proof.
  induction t as [|c t IH]; intros r.
  - intros [= <-]. reflexivity.
  - rewrite re_of_text_cons. destruct (re_of_text t) as [r'|]; [|discriminate].
    destruct (Ascii.eqb c "."); [intros [= <-]; cbn; now apply IH|].
    destruct (is_meta c); [discriminate|]. intros [= <-]. cbn. now apply IH.
Qed.


Lemma re_of_text_literal t : forall r,
  lacks "." t = true ->
  re_of_text t = Some r -> r = map Lit (list_ascii_of_string t).
Proof.
  induction t as [|c t IH]; intros r Hl.
  - intros [= <-]. reflexivity.
  - change (lacks "." (String c t))
      with (negb (Ascii.eqb "." c) && lacks "." t) in Hl.
    apply andb_prop in Hl as [Hc Hl].
    rewrite re_of_text_cons. destruct (re_of_text t) as [r'|]; [|discriminate].
    rewrite Ascii.eqb_sym in Hc. apply negb_true_iff in Hc. rewrite Hc.
    destruct (is_meta c); [discriminate|]. intros [= <-]. cbn. f_equal. now apply IH.
Qed.

Lemma lacks_dot_uint d : lacks "." (NilEmpty.string_of_uint d) = true.
Proof. induction d; cbn; auto. Qed.

Lemma lacks_dot_str n : lacks "." (str n) = true.
Proof.
  unfold str, NilZero.string_of_int, NilZero.string_of_uint.
  destruct (Z.to_int n) as [d|d]; destruct d; cbn; auto using lacks_dot_uint.
Qed.

(** A found handshake: the digits of the group stand in the line right
    before [" -> <remote port>"]. *)
Lemma local_port_re_sound s re line digits :
  local_port_re s = Some re ->
  re_search re line = Some digits ->
  exists pre post,
    line = pre ++ digits ++ " -> " ++ str (remote_port s) ++ post /\
    digits <> "" /\ all_digits digits = true.
Proof.
  unfold local_port_re. intros Hre Hs.
  destruct (re_of_text ("Forwarding from " ++ local_address s ++ ":"))
    as [before|] eqn:Hb; [|discriminate].
  destruct (re_of_text (" -> " ++ str (remote_port s))) as [after|] eqn:Ha;
    [|discriminate].
  injection Hre as <-.
  apply re_search_sound in Hs as (pre & suf & -> & Hm).
  apply match_here_group in Hm as (a & b & -> & _ & Hne & Hd & Hafter);
    [|now apply (re_of_text_no_group _ _ Hb)].
  apply re_of_text_literal in Ha; [|cbn; apply lacks_dot_str]. subst after.
  apply match_here_literal in Hafter as [post ->].
  exists (pre ++ a), post. repeat split; try assumption.
  now rewrite !append_assoc.
Qed.


Lemma int_from_cons acc c s :
  int_from acc (String c s) = int_from (10 * acc + Z.of_nat (nat_of_ascii c - 48)) s.
Proof. reflexivity. Qed.

Lemma int_from_uint_acc d : forall acc : positive,
  int_from (Z.pos acc) (NilEmpty.string_of_uint d) = Z.pos (Pos.of_uint_acc d acc).
Proof.
  induction d; intros acc; cbn [NilEmpty.string_of_uint Pos.of_uint_acc];
    [reflexivity|..]; rewrite int_from_cons, <- IHd; f_equal;
    change (Z.of_nat _) with 0 || change (Z.of_nat _) with 1
    || change (Z.of_nat _) with 2 || change (Z.of_nat _) with 3
    || change (Z.of_nat _) with 4 || change (Z.of_nat _) with 5
    || change (Z.of_nat _) with 6 || change (Z.of_nat _) with 7
    || change (Z.of_nat _) with 8 || change (Z.of_nat _) with 9;
    lia.
Qed.

Lemma int_from_uint d :
  int_from 0 (NilEmpty.string_of_uint d) = Z.of_N (Pos.of_uint d).
Proof.
  induction d; cbn [NilEmpty.string_of_uint Pos.of_uint]; [reflexivity|..];
    rewrite int_from_cons; [exact IHd|..]; apply (int_from_uint_acc d).
Qed.

(** Printing a port and reading it back. *)
Lemma int_str n : 0 <= n -> int (str n) = n.
Proof.
  intros Hn. destruct n as [|p|p]; [reflexivity| |lia].
  unfold str, NilZero.string_of_int, NilZero.string_of_uint. cbn [Z.to_int].
  pose proof (DecimalPos.Unsigned.to_uint_nonnil p) as Hnil.
  destruct (Pos.to_uint p) eqn:E; [contradiction|..]; rewrite <- E;
    change (int ?s) with (int_from 0 s);
    now rewrite int_from_uint, DecimalPos.Unsigned.of_to.
Qed.

Lemma all_digits_uint d : all_digits (NilEmpty.string_of_uint d) = true.
Proof. induction d; cbn; auto. Qed.

Lemma str_digits n : 0 <= n -> str n <> "" /\ all_digits (str n) = true.
Proof.
  intros Hn. destruct n as [|p|p]; [split; [discriminate|reflexivity]| |lia].
  unfold str, NilZero.string_of_int, NilZero.string_of_uint. cbn [Z.to_int].
  pose proof (DecimalPos.Unsigned.to_uint_nonnil p) as Hnil.
  destruct (Pos.to_uint p) eqn:E; [contradiction|..];
    (split; [discriminate|apply (all_digits_uint (_ u))]).
Qed.

(** ** Further properties of connect() and close() *)

Lemma connect_returns_loop child st st' :
  connect child st = Returns st' ->
  exists re output s' p',
    compiled (self st) = Some re /\
    handshake_loop re (self st) (start (cmd (self st)) child) (prog_lines child)
    = Break output s' p' /\
    st' = emit [LogInfo output] (handshaking child st s' p').
Proof.
  rewrite connect_unfold.
  destruct (compiled (self st)) as [re|]; [|discriminate].
  destruct (handshake_loop re (self st) _ _) as [o s' p'|e p'|] eqn:Hloop.
  - intros [= <-]. exists re, o, s', p'. repeat split. exact Hloop.
  - unfold on_exception. destruct (close _); discriminate.
  - discriminate.
Qed.

(** X1.  connect() returns only on a handshake line: the first read that does
    not strip to nothing is the expected text (fixed port) or holds the
    pattern (no port), the reads before it were empty ones with the child
    up, the child is tracked with the rest of its output unread, and the
    only records made are the spawn and the logged line. *)
Theorem connect_returns_only_on_handshake child st st' :
  connect child st = Returns st' ->
  exists blanks raw polled rest,
    prog_lines child = (blanks ++ (raw, polled) :: rest)%list /\
    forallb blank_alive blanks = true /\
    strip raw <> "" /\
    (if truthy (local_port (self st))
     then strip raw = local_port_expected (self st) /\
          local_port (self st') = local_port (self st)
     else exists re digits,
            local_port_re (self st) = Some re /\
            re_search re (strip raw) = Some digits /\
            local_port (self st') = Some (int digits)) /\
    subprocess (self st') = Some (set_stdout rest (start (cmd (self st)) child)) /\
    untracked st' = released st /\
    events st' = (events st ++ [Spawn (prog_pid child) (cmd (self st));
                                LogInfo (strip raw)])%list.
Proof.
  intros H. apply connect_returns_loop in H as (re & o & s' & p' & Hc & Hloop & ->).
  apply handshake_loop_break_inv in Hloop
    as (blanks & raw & polled & rest & Hl & Hb & <- & Hne & Hv & ->).
  exists blanks, raw, polled, rest. split; [exact Hl|]. split; [exact Hb|].
  split; [exact Hne|]. split; [|split; [reflexivity|split; [reflexivity|]]].
  - unfold compiled in Hc. destruct (truthy (local_port (self st))) eqn:Ht.
    + rewrite (validate_fixed_port _ _ _ Ht) in Hv.
      destruct (String.eqb_spec (strip raw) (local_port_expected (self st)));
        [|discriminate].
      injection Hv as <-. split; [assumption|reflexivity].
    + rewrite (validate_any_port _ _ _ Ht) in Hv.
      destruct (re_search re (strip raw)) as [digits|] eqn:Hs; [|discriminate].
      injection Hv as <-. exists re, digits. repeat split; assumption.
  - cbn. rewrite <- app_assoc. reflexivity.
Qed.

Lemma int_from_nonneg s : forall acc, 0 <= acc -> 0 <= int_from acc s.
Proof.
  induction s as [|c s IH]; intros acc Hacc; [exact Hacc|].
  rewrite int_from_cons. apply IH. lia.
Qed.

(** X2.  With no port asked for, the port that connect() resolves is the value
    of a non-empty run of decimal digits that the child printed right
    before [" -> <remote port>"]; it is not negative. *)
Theorem resolved_port_is_printed child st st' :
  truthy (local_port (self st)) = false ->
  connect child st = Returns st' ->
  exists raw polled pre digits post,
    In (raw, polled) (prog_lines child) /\
    strip raw = pre ++ digits ++ " -> " ++ str (remote_port (self st)) ++ post /\
    digits <> "" /\ all_digits digits = true /\
    local_port (self st') = Some (int digits) /\
    0 <= int digits.
Proof.
  intros Ht H.
  apply connect_returns_loop in H as (re & o & s' & p' & Hc & Hloop & ->).
  apply handshake_loop_break_inv in Hloop
    as (blanks & raw & polled & rest & Hl & _ & <- & _ & Hv & ->).
  unfold compiled in Hc. rewrite Ht in Hc. rename Hc into Hre.
  rewrite (validate_any_port _ _ _ Ht) in Hv.
  destruct (re_search re (strip raw)) as [digits|] eqn:Hs; [|discriminate].
  injection Hv as <-.
  assert (Hlp : local_port (self (emit [LogInfo (strip raw)]
                  (handshaking child st
                     (set_local_port (Some (int digits)) (self st))
                     (set_stdout rest (start (cmd (self st)) child)))))
                = Some (int digits)) by reflexivity.
  destruct (local_port_re_sound _ _ _ _ Hre Hs) as (pre & post & Hline & Hne & Hd).
  exists raw, polled, pre, digits, post. repeat split; try assumption.
  - rewrite Hl. apply in_or_app. right. left. reflexivity.
  - change (int digits) with (int_from 0 digits). apply int_from_nonneg. lia.
Qed.

Lemma validate_keeps_spec re s o s' :
  validate re s o = Ok s' -> tunnel_spec s' = tunnel_spec s.
Proof.
  unfold validate. destruct (truthy (local_port s)).
  - destruct (negb _); [discriminate|]. now intros [= <-].
  - destruct (re_search re o); [|discriminate]. now intros [= <-].
Qed.

Lemma handshake_loop_keeps_spec re s p l o s' p' :
  handshake_loop re s p l = Break o s' p' -> tunnel_spec s' = tunnel_spec s.
Proof.
  intros H. apply handshake_loop_break_inv in H as (_ & _ & _ & _ & _ & _ & _ & _ & Hv & _).
  now apply validate_keeps_spec in Hv.
Qed.

Lemma close_final st st' :
  final_state (close st) = Some st' ->
  tunnel_spec (self st') = tunnel_spec (self st) /\
  local_port (self st') = local_port (self st) /\
  exists new, events st' = (events st ++ new)%list /\
              forall q, In (Kill q) new ->
                        exists p, subprocess (self st) = Some p /\ q = pid p.
Proof.
  destruct (subprocess (self st)) as [p|] eqn:Hp.
  - destruct (gone_after_kill p) eqn:Hg.
    + rewrite (close_gone st p Hp Hg). intros [= <-]. cbn.
      repeat split. eexists. split; [reflexivity|].
      intros q [H|[H|[H|[H|[]]]]]; try discriminate. injection H as <-. eauto.
    + rewrite (close_survived st p Hp Hg). intros [= <-]. cbn.
      repeat split. eexists. split; [reflexivity|].
      intros q [H|[H|[]]]; try discriminate. injection H as <-. eauto.
  - rewrite (close_untracked st Hp). intros [= <-]. repeat split.
    exists []. split; [now rewrite app_nil_r|]. intros q [].
Qed.

(** X9.  connect() and close() never touch what [__init__] has set: context,
    namespace, destination, remote port and bind address are the same in
    every state a call ends in; close() leaves the local port alone too. *)
Theorem calls_keep_tunnel_spec child st st' :
  (final_state (connect child st) = Some st' ->
   tunnel_spec (self st') = tunnel_spec (self st)) /\
  (final_state (close st) = Some st' ->
   tunnel_spec (self st') = tunnel_spec (self st) /\
   local_port (self st') = local_port (self st)).
Proof.
  split.
  - rewrite connect_unfold.
    destruct (compiled (self st)) as [re|]; [|discriminate].
    destruct (handshake_loop re (self st) _ _) as [o s' p'|e p'|] eqn:Hloop.
    + intros [= <-]. cbn. now apply handshake_loop_keeps_spec in Hloop.
    + intros H.
      assert (Hf : final_state (close (handshaking child st (self st) p')) = Some st').
      { unfold on_exception in H. destruct (close _); cbn in *; congruence. }
      apply close_final in Hf as (Hs & _). exact Hs.
    + discriminate.
  - intros H. apply close_final in H as (Hs & Hl & _). split; assumption.
Qed.

(** X8.  connect() on a handle that still tracks a process starts the new one
    without a word to the old: the old process object is dropped from the
    handle as it is, and every kill that the call issues goes to the new
    process. *)
Theorem reconnect_abandons_old child st old st' :
  subprocess (self st) = Some old ->
  final_state (connect child st) = Some st' ->
  (exists newer, untracked st' = (newer ++ old :: untracked st)%list) /\
  (exists new, events st' = (events st ++ new)%list /\
               forall q, In (Kill q) new -> q = prog_pid child).
Proof.
  intros Hold. rewrite connect_unfold.
  destruct (compiled (self st)) as [re|]; [|discriminate].
  assert (Hrel : released st = old :: untracked st) by (unfold released; now rewrite Hold).
  destruct (handshake_loop re (self st) _ _) as [o s' p'|e p'|] eqn:Hloop.
  - intros [= <-]. cbn. rewrite Hrel. split; [now exists []|].
    eexists. split; [rewrite <- app_assoc; reflexivity|].
    intros q [H|[H|[]]]; discriminate.
  - intros H.
    assert (Hf : final_state (close (handshaking child st (self st) p')) = Some st').
    { unfold on_exception in H. destruct (close _); cbn in *; congruence. }
    pose proof (handshake_loop_raises _ _ _ _ _ _ Hloop) as (Hpid & _).
    pose proof Hf as Hf'. apply close_final in Hf' as (_ & _ & new & Hev & Hk).
    split.
    + destruct (gone_after_kill p') eqn:Hg.
      * rewrite (close_gone (handshaking child st (self st) p') p' eq_refl Hg) in Hf. injection Hf as <-. cbn.
        rewrite Hrel. now exists [set_stdout [] (kill p')].
      * rewrite (close_survived (handshaking child st (self st) p') p' eq_refl Hg) in Hf. injection Hf as <-. cbn.
        rewrite Hrel. now exists [].
    + exists (Spawn (prog_pid child) (cmd (self st)) :: new). split.
      * rewrite Hev. cbn. rewrite <- app_assoc. reflexivity.
      * intros q [H0|H0]; [discriminate|].
        destruct (Hk q H0) as (p & [= <-] & ->). exact Hpid.
  - discriminate.
Qed.

(** X6.  A handle that connect() has made ready is shut down by close(): when
    the child is gone within the grace period after the kill, close()
    returns with nothing tracked, the child reaped and the resolved port
    kept; when the child outlasts the grace period, close() raises
    [TimeoutExpired] and the handle still tracks the same process. *)
Theorem connect_then_close child st st1 :
  connect child st = Returns st1 ->
  if prog_dies_when_killed child
  then exists st2 p,
         close st1 = Returns st2 /\
         subprocess (self st2) = None /\
         untracked st2 = p :: released st /\
         pid p = prog_pid child /\ running p = false /\
         In (Kill (prog_pid child)) (events st2) /\
         local_port (self st2) = local_port (self st1)
  else exists st2,
         close st1 = Raises TimeoutExpired st2 /\
         subprocess (self st2) = subprocess (self st1) /\
         In (Kill (prog_pid child)) (events st2).
Proof.
  intros H. apply connect_returns_loop in H as (re & o & s' & p' & _ & Hloop & ->).
  apply handshake_loop_break_inv in Hloop
    as (_ & _ & _ & rest & _ & _ & _ & _ & _ & ->).
  set (p := set_stdout rest (start (cmd (self st)) child)).
  set (st1 := emit [LogInfo o] (handshaking child st s' p)).
  assert (Hsub : subprocess (self st1) = Some p) by reflexivity.
  destruct (prog_dies_when_killed child) eqn:Hd.
  - assert (Hg : gone_after_kill p = true) by (unfold gone_after_kill; cbn; exact Hd).
    rewrite (close_gone st1 p Hsub Hg).
    destruct (kill_gone p Hg) as [rc Hrc].
    eexists _, _. split; [reflexivity|]. cbn [self untracked events subprocess
      set_subprocess local_port].
    split; [reflexivity|]. split; [reflexivity|].
    split; [cbn [pid set_stdout]; now rewrite kill_pid|].
    split; [unfold running; cbn [returncode set_stdout]; now rewrite Hrc|].
    split; [|reflexivity].
    apply in_or_app. right. right. left. reflexivity.
  - assert (Hg : gone_after_kill p = false) by (unfold gone_after_kill; cbn; exact Hd).
    rewrite (close_survived st1 p Hsub Hg).
    eexists. split; [reflexivity|]. split; [reflexivity|].
    cbn [events]. apply in_or_app. right. right. left. reflexivity.
Qed.

(** X7.  A connect() that raises [PortForwardingError] has cleaned up after
    itself: the child it started was sent the kill, is reaped and is no
    longer tracked, so a close() by the caller returns at once and changes
    nothing. *)
Theorem close_after_failed_connect child st d st' :
  connect child st = Raises (PortForwardingError d) st' ->
  subprocess (self st') = None /\
  (exists p, untracked st' = p :: released st /\
             pid p = prog_pid child /\ running p = false) /\
  In (Kill (prog_pid child)) (events st') /\
  close st' = Returns st'.
Proof.
  rewrite connect_unfold.
  destruct (compiled (self st)) as [re|]; [|discriminate].
  destruct (handshake_loop re (self st) _ _) as [o s' p'|e0 p'|] eqn:Hloop;
    try discriminate.
  pose proof (handshake_loop_raises _ _ _ _ _ _ Hloop) as (Hpid & _ & _).
  destruct (gone_after_kill p') eqn:Hg.
  - destruct (on_exception_gone e0 (handshaking child st (self st) p') p' eq_refl Hg)
      as (st2 & -> & Hnone & Hun & tl & Hev).
    intros [= _ <-]. destruct (kill_gone p' Hg) as [rc Hrc].
    split; [exact Hnone|]. split; [|split].
    + eexists. split; [exact Hun|]. split.
      * cbn [pid set_stdout]. rewrite kill_pid. exact Hpid.
      * unfold running. cbn [returncode set_stdout]. now rewrite Hrc.
    + rewrite Hev. apply in_or_app. right. right. left. now rewrite Hpid.
    + now apply close_untracked.
  - destruct (on_exception_survived e0 (handshaking child st (self st) p') p' eq_refl Hg)
      as (st2 & -> & _).
    discriminate.
Qed.

Lemma set_local_port_back s p :
  local_port s = Some p -> set_local_port (Some p) (set_local_port None s) = s.
Proof. destruct s. cbn. now intros ->. Qed.

(** X4.  The two ways of checking a line agree: the text that a handle with a
    fixed port [p > 0] expects is also found by the pattern of the same
    handle without a port, and the port read back from it is [p]. *)
Theorem fixed_handshake_resolves_to_same_port child st p blanks raw polled rest :
  local_port (self st) = Some p ->
  0 < p ->
  is_Some (re_of_text (local_address (self st))) ->
  forallb blank_alive blanks = true ->
  strip raw = local_port_expected (self st) ->
  let lines := (blanks ++ (raw, polled) :: rest)%list in
  exists st1 st2,
    connect (with_lines lines child) st = Returns st1 /\
    connect (with_lines lines child) (port_to None st) = Returns st2 /\
    local_port (self st1) = Some p /\
    local_port (self st2) = Some p.
Proof.
  intros Hlp Hp Hplain Hb Hraw lines.
  assert (Ht : truthy (local_port (self st)) = true).
  { rewrite Hlp. cbn. apply negb_true_iff, Z.eqb_neq. lia. }
  assert (Hne : strip raw <> "") by (rewrite Hraw; discriminate).
  destruct (str_digits p ltac:(lia)) as [Hd1 Hd2].
  destruct (local_port_re_plain _ Hplain) as [re Hre].
  eexists _, _. split; [|split].
  - subst lines.
    rewrite (connect_first_line child st [] blanks raw polled rest
               ltac:(unfold compiled; now rewrite Ht) Hb Hne).
    rewrite (validate_fixed_port _ _ _ Ht), Hraw, String.eqb_refl. reflexivity.
  - subst lines.
    assert (Hc : compiled (self (port_to None st)) = Some re) by exact Hre.
    rewrite (connect_first_line child (port_to None st) re blanks raw polled rest
               Hc Hb Hne).
    rewrite (validate_any_port re (self (port_to None st)) _ eq_refl), Hraw.
    unfold local_port_expected. rewrite Hlp. cbn [fmt_port].
    change (local_address (self st)) with (local_address (self (port_to None st))).
    change (remote_port (self st)) with (remote_port (self (port_to None st))).
    rewrite (search_handshake_line (self (port_to None st)) re (str p) Hre Hd1 Hd2).
    reflexivity.
  - cbn. split; [exact Hlp|]. now rewrite int_str by lia.
Qed.

(** ** label_dict_to_selector *)

Lemma selector_cons kv labels :
  Selector.label_dict_to_selector (kv :: labels) =
    match labels with
    | [] => Selector.label_term kv
    | _ :: _ => Selector.label_term kv ++ "," ++ Selector.label_dict_to_selector labels
    end.
Proof. destruct labels; reflexivity. Qed.

Lemma append_eq_empty a b : a ++ b = "" -> a = "" /\ b = "".
Proof. destruct a; [now destruct b|discriminate]. Qed.

Lemma label_term_nonempty kv : Selector.label_term kv <> "".
Proof.
  unfold Selector.label_term. intros H. apply append_eq_empty in H as [_ H]. discriminate.
Qed.

Lemma selector_cons_nonempty kv labels :
  Selector.label_dict_to_selector (kv :: labels) <> "".
Proof.
  rewrite selector_cons. destruct labels; intros H.
  - now apply label_term_nonempty in H.
  - apply append_eq_empty in H as [H _]. now apply label_term_nonempty in H.
Qed.

(** X11.  The selector is empty exactly for the empty dict, and then
    list_pods_with_labels asks for all the pods of the namespace. *)
Theorem selector_empty_iff list_namespaced_pod self labels :
  (Selector.label_dict_to_selector labels = "" <-> labels = []) /\
  Selector.list_pods_with_labels list_namespaced_pod self []
  = bind (list_namespaced_pod (name self) "") (fun l => Ok (Selector.items l)).
Proof.
  split; [|reflexivity]. split.
  - destruct labels as [|kv labels]; [reflexivity|].
    intros H. now apply selector_cons_nonempty in H.
  - intros ->. reflexivity.
Qed.

Lemma lacks_app c a b : lacks c (a ++ b) = lacks c a && lacks c b.
Proof.
  induction a as [|x a IH]; [reflexivity|].
  rewrite append_cons. cbn [lacks]. rewrite IH. now rewrite andb_assoc.
Qed.

(** Two texts cut at the first [c] are cut at the same place. *)
Lemma split_at_first c a b x y :
  lacks c a = true -> lacks c b = true ->
  a ++ String c x = b ++ String c y -> a = b /\ x = y.
Proof.
  revert b. induction a as [|u a IH]; intros b Ha Hb H.
  - destruct b as [|v b]; [injection H as ->; now split|].
    change ("" ++ String c x) with (String c x) in H. rewrite append_cons in H.
    injection H as <- _. cbn in Hb. now rewrite Ascii.eqb_refl in Hb.
  - destruct b as [|v b].
    + change ("" ++ String c y) with (String c y) in H. rewrite append_cons in H.
      injection H as -> _. cbn in Ha. now rewrite Ascii.eqb_refl in Ha.
    + rewrite !append_cons in H. injection H as -> H.
      cbn in Ha, Hb. apply andb_prop in Ha as [_ Ha]. apply andb_prop in Hb as [_ Hb].
      destruct (IH b Ha Hb H) as [-> ->]. now split.
Qed.

Lemma no_cut c a b y :
  lacks c a = true -> a <> b ++ String c y.
Proof.
  intros Ha ->. rewrite lacks_app in Ha. apply andb_prop in Ha as [_ Ha].
  cbn in Ha. now rewrite Ascii.eqb_refl in Ha.
Qed.

Lemma label_term_lacks_comma kv :
  Selector.plain_label kv = true -> lacks "," (Selector.label_term kv) = true.
Proof.
  unfold Selector.plain_label, Selector.label_term.
  intros [[_ Hk]%andb_prop Hv]%andb_prop.
  rewrite !lacks_app, Hk, Hv. reflexivity.
Qed.

Lemma label_term_inj kv1 kv2 :
  Selector.plain_label kv1 = true -> Selector.plain_label kv2 = true ->
  Selector.label_term kv1 = Selector.label_term kv2 -> kv1 = kv2.
Proof.
  destruct kv1 as [k1 v1], kv2 as [k2 v2].
  unfold Selector.plain_label, Selector.label_term. cbn [fst snd].
  intros [[Hk1 _]%andb_prop _]%andb_prop [[Hk2 _]%andb_prop _]%andb_prop H.
  change (k1 ++ String "=" ("=" ++ v1) = k2 ++ String "=" ("=" ++ v2)) in H.
  destruct (split_at_first _ _ _ _ _ Hk1 Hk2 H) as [-> Hv].
  change (String "=" v1 = String "=" v2) in Hv. now injection Hv as ->.
Qed.

(** X12.  Plain labels can be read back from the selector: two dicts of plain
    labels with the same selector have the same items in the same order. *)
Theorem selector_injective labels1 labels2 :
  forallb Selector.plain_label labels1 = true ->
  forallb Selector.plain_label labels2 = true ->
  Selector.label_dict_to_selector labels1 = Selector.label_dict_to_selector labels2 ->
  labels1 = labels2.
Proof.
  revert labels2. induction labels1 as [|kv1 l1 IH]; intros [|kv2 l2] H1 H2 H.
  - reflexivity.
  - symmetry in H. now apply selector_cons_nonempty in H.
  - now apply selector_cons_nonempty in H.
  - cbn [forallb] in H1, H2.
    apply andb_prop in H1 as [Hp1 H1]. apply andb_prop in H2 as [Hp2 H2].
    pose proof (label_term_lacks_comma _ Hp1) as Hc1.
    pose proof (label_term_lacks_comma _ Hp2) as Hc2.
    rewrite !selector_cons in H.
    destruct l1 as [|x1 l1], l2 as [|x2 l2].
    + f_equal. now apply label_term_inj.
    + exfalso. now apply (no_cut _ _ _ _ Hc1 H).
    + exfalso. symmetry in H. now apply (no_cut _ _ _ _ Hc2 H).
    + destruct (split_at_first _ _ _ _ _ Hc1 Hc2 H) as [Ht Hrest].
      f_equal; [now apply label_term_inj|]. now apply IH.
Qed.

(** ** The deleted checks and _pod_started *)

Lemma checked_is_none_get {A} (func : A -> result k8s_object) (args : A) :
  Checks.checked Checks.is_none (simple_resource_get func args) = Ok true <->
  func args = Ok PyNone \/ func args = Raise (ApiException (Some 404)).
Proof.
  split.
  - unfold Checks.checked, bind.
    destruct (simple_resource_get func args) as [v|e] eqn:E; [|discriminate].
    destruct v; try discriminate. intros _.
    now apply simple_resource_get_none_only_on_404.
  - intros [H|H].
    + now rewrite (simple_resource_get_ok _ _ _ H).
    + now rewrite (simple_resource_get_404 _ _ H).
Qed.

(** X13.  The check of the wait-for-deleted methods, applied to what the getter
    gives, holds exactly when the cluster answered 404 (or handed back
    None itself): for services, service accounts, the namespace and
    deployments alike.  Any other failure of the read is no answer. *)
Theorem deleted_check_holds_iff_not_found (self : KubernetesNamespace) (n : string) :
  (Checks.checked Checks.is_none (get_service self n) = Ok true <->
   read_namespaced_service (core (api self)) n (name self) = Ok PyNone \/
   read_namespaced_service (core (api self)) n (name self)
   = Raise (ApiException (Some 404))) /\
  (Checks.checked Checks.is_none (get_service_account self n) = Ok true <->
   read_namespaced_service_account (core (api self)) n (name self) = Ok PyNone \/
   read_namespaced_service_account (core (api self)) n (name self)
   = Raise (ApiException (Some 404))) /\
  (Checks.checked Checks.is_none (get self) = Ok true <->
   read_namespace (core (api self)) (name self) = Ok PyNone \/
   read_namespace (core (api self)) (name self)
   = Raise (ApiException (Some 404))) /\
  (Checks.checked Checks.is_none (get_deployment self n) = Ok true <->
   read_namespaced_deployment (apps (api self)) n (name self) = Ok PyNone \/
   read_namespaced_deployment (apps (api self)) n (name self)
   = Raise (ApiException (Some 404))).
Proof.
  unfold get_service, get_service_account, get, get_deployment.
  split; [|split; [|split]].
  - apply (checked_is_none_get
             (fun n' => read_namespaced_service (core (api self)) n' (name self))).
  - apply (checked_is_none_get
             (fun n' => read_namespaced_service_account (core (api self)) n' (name self))).
  - apply (checked_is_none_get
             (fun _ : unit => read_namespace (core (api self)) (name self)) tt).
  - apply (checked_is_none_get
             (fun n' => read_namespaced_deployment (apps (api self)) n' (name self))).
Qed.

(** X14.  Decorating a getter twice changes nothing. *)
Theorem simple_resource_get_twice {A} (func : A -> result k8s_object) (args : A) :
  simple_resource_get (simple_resource_get func) args = simple_resource_get func args.
Proof.
  unfold simple_resource_get at 1.
  destruct (simple_resource_get func args) as [v|e] eqn:E; [reflexivity|].
  assert (He : e <> ApiException (Some 404)).
  { intros ->. unfold simple_resource_get in E.
    destruct (func args) as [v|e]; [discriminate|].
    destruct e as [[st|]| | | | |]; try discriminate.
    destruct st as [|q|q]; try discriminate.
    do 9 (destruct q as [q|q|]; try discriminate). }
  destruct e as [[st|]| | | | |]; try reflexivity.
  destruct st as [|q|q]; try reflexivity.
  do 9 (destruct q as [q|q|]; try reflexivity). congruence.
Qed.

(** X15.  [_pod_started] holds only for a pod that carries a status whose phase
    is neither Pending nor Unknown; a pod whose phase was never set counts
    as started. *)
Theorem pod_started_iff (v : k8s_object) :
  _pod_started v = Ok true <->
  exists p st, v = APod p /\ pod_status p = Some st /\
               phase st <> Some "Pending" /\ phase st <> Some "Unknown".
Proof.
  split.
  - destruct v as [| | | | |p]; try discriminate. cbn.
    destruct (pod_status p) as [st|] eqn:Hst; [|discriminate]. cbn.
    intros [= H]. exists p, st. split; [reflexivity|]. split; [exact Hst|].
    apply negb_true_iff, orb_false_elim in H as [H1 H2].
    split; [now apply bool_decide_eq_false in H1|now apply bool_decide_eq_false in H2].
  - intros (p & st & -> & Hst & H1 & H2). cbn. rewrite Hst. cbn. f_equal.
    apply negb_true_iff, orb_false_intro; now apply bool_decide_eq_false.
Qed.

(** ** get_service_neg *)

(** X18.  get_service_neg against the predicate that wait_for_service_neg waits
    for, on the same service: where the predicate holds, the annotation is
    there and only its content can make the call fail; where the predicate
    is false, the call raises [KeyError]; where the predicate raises, the
    call raises the same exception. *)
Theorem get_service_neg_after_check json_loads
    (self : KubernetesNamespace) (n : string) (port : Z) (s : V1Service) :
  get_service self n = Ok (AService s) ->
  match _check_service_neg_annotation (AService s) with
  | Ok true =>
      exists md m text,
        svc_metadata s = Some md /\ annotations md = Some m /\
        m !! NEG_STATUS_META = Some text /\
        ServiceNeg.get_service_neg json_loads self n port
        = ServiceNeg.parse_neg json_loads text port
  | Ok false =>
      ServiceNeg.get_service_neg json_loads self n port
      = ServiceNeg.Fails (ServiceNeg.KeyError NEG_STATUS_META)
  | Raise e =>
      ServiceNeg.get_service_neg json_loads self n port
      = ServiceNeg.Fails (ServiceNeg.Base e)
  end.
Proof.
  intros Hget. unfold ServiceNeg.get_service_neg. rewrite Hget. cbn.
  destruct (svc_metadata s) as [md|] eqn:Hmd; [|reflexivity]. cbn.
  destruct (annotations md) as [m|] eqn:Ha; [|reflexivity]. cbn.
  destruct (m !! NEG_STATUS_META) as [text|] eqn:Hm.
  - rewrite bool_decide_eq_true_2 by eauto. exists md, m, text.
    repeat split; assumption.
  - rewrite bool_decide_eq_false_2; [reflexivity|]. intros [x Hx]. discriminate.
Qed.

(** X19.  A service that is not there makes get_service_neg raise
    [AttributeError], not return None; any other failure of the read comes
    out as it is. *)
Theorem get_service_neg_read_failure json_loads
    (self : KubernetesNamespace) (n : string) (port : Z) (e : exn) :
  read_namespaced_service (core (api self)) n (name self) = Raise e ->
  (e = ApiException (Some 404) ->
   ServiceNeg.get_service_neg json_loads self n port
   = ServiceNeg.Fails (ServiceNeg.Base AttributeError)) /\
  (e <> ApiException (Some 404) ->
   ServiceNeg.get_service_neg json_loads self n port
   = ServiceNeg.Fails (ServiceNeg.Base e)).
Proof.
  intros H. unfold ServiceNeg.get_service_neg, get_service. split.
  - intros ->.
    now rewrite (simple_resource_get_404
      (fun n' => read_namespaced_service (core (api self)) n' (name self)) n H).
  - intros Hne.
    now rewrite (simple_resource_get_propagates
      (fun n' => read_namespaced_service (core (api self)) n' (name self)) n e H Hne).
Qed.

(** X20.  What the annotation must hold for the call to succeed: a dict with a
    dict under [network_endpoint_groups] that has the port, as text, among
    its keys, and with [zones]; the call gives back the two values found. *)
Theorem read_neg_info_succeeds_iff (neg_info : ServiceNeg.json) (port : Z)
    (neg_name neg_zones : ServiceNeg.json) :
  ServiceNeg.read_neg_info neg_info port = ServiceNeg.Got (neg_name, neg_zones) <->
  exists o groups,
    neg_info = ServiceNeg.JObject o /\
    ServiceNeg.dict_get o "network_endpoint_groups" = Some (ServiceNeg.JObject groups) /\
    ServiceNeg.dict_get groups (str port) = Some neg_name /\
    ServiceNeg.dict_get o "zones" = Some neg_zones.
Proof.
  unfold ServiceNeg.read_neg_info. split.
  - destruct neg_info as [| | | | |o]; try discriminate. cbn.
    destruct (ServiceNeg.dict_get o "network_endpoint_groups") as [g|] eqn:Hg;
      [|discriminate]. cbn.
    destruct g as [| | | | |groups]; try discriminate. cbn.
    destruct (ServiceNeg.dict_get groups (str port)) as [nm|] eqn:Hn; [|discriminate].
    cbn. destruct (ServiceNeg.dict_get o "zones") as [z|] eqn:Hz; [|discriminate].
    cbn. intros [= <- <-]. exists o, groups. repeat split; assumption.
  - intros (o & groups & -> & Hg & Hn & Hz). cbn. rewrite Hg. cbn. rewrite Hn. cbn.
    rewrite Hz. reflexivity.
Qed.

(** ** KubernetesApiManager *)

(** X21.  Managers for the same context share one client: building a second one
    makes no client, logs nothing and leaves the world as it is. *)
Theorem managers_share_client kubeconfig host ctx w m1 w1 :
  ApiClients.__init__ kubeconfig host ctx w = Some (m1, w1) ->
  ApiClients.__init__ kubeconfig host ctx w1 = Some (m1, w1).
Proof.
  unfold ApiClients.__init__, ApiClients._cached_api_client_for_context.
  destruct (ApiClients.cache w !! ctx) as [c|] eqn:Hc.
  - intros [= <- <-]. now rewrite Hc.
  - destruct (decide (ctx ∈ kubeconfig)); [|discriminate].
    intros [= <- <-]. cbn. now rewrite lookup_insert_eq.
Qed.

(** X22.  close() on one manager closes the client of every manager of the same
    context: of one built before, once close() is called, and of one built
    after, from the start.  The memo is never cleared. *)
Theorem close_reaches_every_manager kubeconfig host ctx w m1 w1 :
  ApiClients.__init__ kubeconfig host ctx w = Some (m1, w1) ->
  (forall m2 w2,
     ApiClients.__init__ kubeconfig host ctx w1 = Some (m2, w2) ->
     ApiClients.client m2 ∈ ApiClients.closed (ApiClients.close m1 w2)) /\
  (forall m2 w2,
     ApiClients.__init__ kubeconfig host ctx (ApiClients.close m1 w1) = Some (m2, w2) ->
     ApiClients.client m2 ∈ ApiClients.closed w2).
Proof.
  intros H1.
  assert (Hc : ApiClients.cache w1 !! ctx = Some (ApiClients.client m1)).
  { revert H1. unfold ApiClients.__init__, ApiClients._cached_api_client_for_context.
    destruct (ApiClients.cache w !! ctx) as [c|] eqn:Hc.
    - intros [= <- <-]. exact Hc.
    - destruct (decide (ctx ∈ kubeconfig)); [|discriminate].
      intros [= <- <-]. cbn. now rewrite lookup_insert_eq. }
  split; intros m2 w2 H2;
    unfold ApiClients.__init__, ApiClients._cached_api_client_for_context in H2;
    cbn [ApiClients.cache ApiClients.close] in H2; rewrite Hc in H2;
    inversion H2; subst; cbn;
    apply elem_of_union_r, elem_of_singleton; reflexivity.
Qed.

Lemma init_consistent kubeconfig host ctx w m w' :
  ApiClients.consistent w ->
  ApiClients.__init__ kubeconfig host ctx w = Some (m, w') ->
  ApiClients.consistent w' /\
  ApiClients.cache w' !! ctx = Some (ApiClients.client m) /\
  (forall k c, ApiClients.cache w !! k = Some c -> ApiClients.cache w' !! k = Some c).
Proof.
  intros [Hlt Hinj]. unfold ApiClients.__init__, ApiClients._cached_api_client_for_context.
  destruct (ApiClients.cache w !! ctx) as [c|] eqn:Hc.
  - intros [= <- <-]. cbn. repeat split; auto.
  - destruct (decide (ctx ∈ kubeconfig)); [|discriminate].
    intros [= <- <-]. unfold ApiClients.consistent.
    cbn [ApiClients.cache ApiClients.made ApiClients.client ApiClients.closed].
    split; [split|split].
    + intros k c. destruct (decide (ctx = k)) as [->|Hk].
      * rewrite lookup_insert_eq. intros [= <-]. lia.
      * rewrite lookup_insert_ne by exact Hk. intros H. apply Hlt in H. lia.
    + intros k1 k2 c.
      destruct (decide (ctx = k1)) as [E1|Hk1], (decide (ctx = k2)) as [E2|Hk2];
        subst;
        rewrite ?lookup_insert_eq, ?lookup_insert_ne by assumption; try done.
      * intros [= <-] H. apply Hlt in H. lia.
      * intros H [= <-]. apply Hlt in H. lia.
      * apply Hinj.
    + now rewrite lookup_insert_eq.
    + intros k c H. rewrite lookup_insert_ne; [exact H|]. congruence.
Qed.

(** X23.  Starting from a world whose memo is consistent (the empty one is),
    managers of different contexts never share a client, whatever the
    order they are built in, so close() on one leaves the other's client
    as it was; and the memo stays consistent. *)
Theorem contexts_do_not_share kubeconfig host ctx1 ctx2 w m1 w1 m2 w2 :
  ApiClients.consistent w ->
  ctx1 <> ctx2 ->
  ApiClients.__init__ kubeconfig host ctx1 w = Some (m1, w1) ->
  ApiClients.__init__ kubeconfig host ctx2 w1 = Some (m2, w2) ->
  ApiClients.client m1 <> ApiClients.client m2 /\
  (ApiClients.client m2 ∈ ApiClients.closed (ApiClients.close m1 w2) <->
   ApiClients.client m2 ∈ ApiClients.closed w2) /\
  ApiClients.consistent w2.
Proof.
  intros Hw Hne H1 H2.
  destruct (init_consistent _ _ _ _ _ _ Hw H1) as (Hw1 & Hc1 & _).
  destruct (init_consistent _ _ _ _ _ _ Hw1 H2) as (Hw2 & Hc2 & Hkeep).
  assert (Hd : ApiClients.client m1 <> ApiClients.client m2).
  { intros Heq. apply Hkeep in Hc1. rewrite Heq in Hc1.
    destruct Hw2 as [_ Hinj]. apply Hne. exact (Hinj _ _ _ Hc1 Hc2). }
  split; [exact Hd|]. split; [|exact Hw2]. cbn.
  rewrite elem_of_union, elem_of_singleton. split; [|now left].
  intros [H|H]; [exact H|]. now destruct Hd.
Qed.

Lemma empty_world_consistent : ApiClients.consistent ApiClients.empty_world.
Proof. split; intros *; cbn; now rewrite lookup_empty. Qed.

(** ** More on the predicates and on the bind address *)

Lemma replicas_available_inv (v : k8s_object) (count : Z) :
  _replicas_available v count = Ok true <->
  exists d st n, v = ADeployment d /\ depl_status d = Some st /\
                 available_replicas st = Some n /\ count <= n.
Proof.
  split.
  - destruct v as [| | | |d|]; try discriminate. cbn.
    destruct (depl_status d) as [st|] eqn:Hst; [|discriminate]. cbn.
    destruct (available_replicas st) as [n|] eqn:Hn; [|discriminate].
    intros [= H]. exists d, st, n. repeat split; try assumption. now apply Z.leb_le.
  - intros (d & st & n & -> & Hst & Hn & Hle). cbn. rewrite Hst. cbn. rewrite Hn.
    f_equal. now apply Z.leb_le.
Qed.

(** X17.  A deployment that has [count] replicas available has every smaller
    number available too; one that raises for a count raises for all. *)
Theorem replicas_available_monotone (v : k8s_object) (count count' : Z) :
  count' <= count ->
  (_replicas_available v count = Ok true -> _replicas_available v count' = Ok true) /\
  (forall e, _replicas_available v count = Raise e ->
             _replicas_available v count' = Raise e).
Proof.
  intros Hle. split.
  - intros H. apply replicas_available_inv in H as (d & st & n & -> & Hst & Hn & Hc).
    apply replicas_available_inv. exists d, st, n. repeat split; try assumption. lia.
  - intros e. destruct v as [| | | |d|]; try discriminate. cbn.
    destruct (depl_status d) as [st|]; [|trivial]. cbn.
    destruct (available_replicas st); discriminate.
Qed.

(** X16.  [_check_service_neg_annotation] holds only for a service that carries
    metadata with an annotation dict that has the NEG status key. *)
Theorem check_service_neg_annotation_iff (v : k8s_object) :
  _check_service_neg_annotation v = Ok true <->
  exists s md m text, v = AService s /\ svc_metadata s = Some md /\
                      annotations md = Some m /\ m !! NEG_STATUS_META = Some text.
Proof.
  split.
  - destruct v as [|s| | | |]; try discriminate. cbn.
    destruct (svc_metadata s) as [md|] eqn:Hmd; [|discriminate]. cbn.
    destruct (annotations md) as [m|] eqn:Ha; [|discriminate]. cbn.
    intros [= H]. apply bool_decide_eq_true in H as [text Ht].
    exists s, md, m, text. repeat split; assumption.
  - intros (s & md & m & text & -> & Hmd & Ha & Ht). cbn. rewrite Hmd. cbn.
    rewrite Ha. cbn. f_equal. apply bool_decide_eq_true. eauto.
Qed.

Lemma or_default_nonempty a : or_default a <> "".
Proof.
  unfold or_default. destruct a as [s|]; [|discriminate].
  destruct (String.eqb_spec s ""); [discriminate|assumption].
Qed.

(** X10.  kubectl never receives an empty [--address].  Whatever sequence of
    connect() and close() calls a handle has been through, the address it
    holds is the one [__init__] settled on, which is not empty (the
    default 127.0.0.1 stands in for a missing or empty one); every command
    started so far was kubectl port-forward with that address after
    [--address], and the next connect() that ends starts one more such
    command. *)
Theorem bind_address_never_empty ctx ns dest rp lp addr st :
  reachable (__init__ ctx ns dest rp lp addr) st ->
  or_default addr <> "" /\
  (or_default addr = "127.0.0.1" \/ addr = Some (or_default addr)) /\
  local_address (self st) = or_default addr /\
  (forall q c,
     In (Spawn q c) (events st) ->
     exists mapping,
       c = [ "kubectl"; "--context"; ctx; "--namespace"; ns;
             "port-forward"; "--address"; or_default addr; dest; mapping ]) /\
  (forall child st',
     final_state (connect child st) = Some st' ->
     exists tl,
       events st'
       = (events st
          ++ Spawn (prog_pid child)
               [ "kubectl"; "--context"; ctx; "--namespace"; ns;
                 "port-forward"; "--address"; or_default addr; dest;
                 port_mapping (self st) ] :: tl)%list).
Proof.
  intros Hr.
  assert (Hinv : tunnel_spec (self st) = (ctx, ns, dest, rp, or_default addr) /\
                 forall q c, In (Spawn q c) (events st) ->
                   exists mapping,
                     c = [ "kubectl"; "--context"; ctx; "--namespace"; ns;
                           "port-forward"; "--address"; or_default addr; dest;
                           mapping ]).
  { induction Hr as [|child st st' Hr [IHs IHe] Hf|st st' Hr [IHs IHe] Hf].
    - split; [reflexivity|]. intros q c [].
    - split.
      + rewrite <- IHs. revert Hf. rewrite connect_unfold.
        destruct (compiled (self st)) as [re|]; [|discriminate].
        destruct (handshake_loop re (self st) _ _) as [o s' p'|e p'|] eqn:Hloop.
        * intros [= <-]. cbn. now apply handshake_loop_keeps_spec in Hloop.
        * intros H.
          assert (Hc : final_state (close (handshaking child st (self st) p')) = Some st').
          { unfold on_exception in H. destruct (close _); cbn in *; congruence. }
          apply close_final in Hc as (Hs & _). exact Hs.
        * discriminate.
      + apply connect_spawns in Hf as (tl & Hev & Hno).
        intros q c Hin. rewrite Hev in Hin.
        apply in_app_or in Hin as [Hin|[Hin|Hin]].
        * exact (IHe q c Hin).
        * injection Hin as <- <-. exists (port_mapping (self st)).
          unfold cmd, tunnel_spec in *. injection IHs as -> -> -> _ ->. reflexivity.
        * destruct (Hno _ _ Hin).
    - pose proof Hf as Hf'. apply close_final in Hf as (Hs & _).
      split; [now rewrite Hs|].
      apply close_spawns_nothing in Hf' as (new & Hev & Hno).
      intros q c Hin. rewrite Hev in Hin. apply in_app_or in Hin as [Hin|Hin].
      + exact (IHe q c Hin).
      + destruct (Hno _ _ Hin). }
  destruct Hinv as [Hs He].
  split; [apply or_default_nonempty|].
  split.
  { unfold or_default. destruct addr as [s|]; [|now left].
    destruct (String.eqb s ""); [now left|now right]. }
  split; [unfold tunnel_spec in Hs; now injection Hs|].
  split; [exact He|].
  intros child st' Hf. apply connect_spawns in Hf as (tl & Hev & _).
  exists tl. rewrite Hev. unfold cmd.
  unfold tunnel_spec in Hs. injection Hs as -> -> -> _ ->. reflexivity.
Qed.

(** ** The further properties at sample inputs *)

Lemma connect_returns_only_on_handshake_witness :
  connect (with_lines [(Samples.newline, None); (Samples.handshake_9000, None)]
                      Samples.forwarding)
          (fresh Samples.fixed_port)
  = Returns Samples.ready_9000 /\
  exists blanks raw polled rest,
    [(Samples.newline, None); (Samples.handshake_9000, None)]
    = (blanks ++ (raw, polled) :: rest)%list /\
    forallb blank_alive blanks = true /\
    strip raw = local_port_expected Samples.fixed_port /\
    local_port (self Samples.ready_9000) = Some 9000.
Proof.
  split; [reflexivity|].
  destruct (connect_returns_only_on_handshake
              (with_lines [(Samples.newline, None); (Samples.handshake_9000, None)]
                          Samples.forwarding)
              (fresh Samples.fixed_port) Samples.ready_9000 eq_refl)
    as (blanks & raw & polled & rest & Hl & Hb & _ & Hport & _).
  exists blanks, raw, polled, rest.
  split; [exact Hl|]. split; [exact Hb|]. exact Hport.
Defined.

Lemma resolved_port_is_printed_witness :
  truthy (local_port (self (fresh Samples.any_port))) = false /\
  connect (with_lines [(Samples.handshake_54321, None)] Samples.forwarding)
          (fresh Samples.any_port)
  = Returns Samples.ready_54321 /\
  exists raw polled pre digits post,
    In (raw, polled)
       (prog_lines (with_lines [(Samples.handshake_54321, None)] Samples.forwarding)) /\
    strip raw = pre ++ digits ++ " -> "
                  ++ str (remote_port (self (fresh Samples.any_port))) ++ post /\
    digits <> "" /\ all_digits digits = true /\
    local_port (self Samples.ready_54321) = Some (int digits) /\
    0 <= int digits.
Proof.
  split; [reflexivity|]. split; [reflexivity|].
  exact (resolved_port_is_printed
           (with_lines [(Samples.handshake_54321, None)] Samples.forwarding)
           (fresh Samples.any_port) Samples.ready_54321 eq_refl eq_refl).
Defined.

Lemma calls_keep_tunnel_spec_witness :
  (final_state (connect Samples.rejected_child (fresh Samples.fixed_port))
   = Some Samples.rejected_state /\
   tunnel_spec (self Samples.rejected_state) = tunnel_spec Samples.fixed_port) /\
  (final_state (close Samples.ready_9000) = Some Cases.closed_9000 /\
   tunnel_spec (self Cases.closed_9000) = tunnel_spec (self Samples.ready_9000) /\
   local_port (self Cases.closed_9000) = local_port (self Samples.ready_9000)).
Proof.
  split.
  - split; [reflexivity|].
    exact (proj1 (calls_keep_tunnel_spec Samples.rejected_child
                    (fresh Samples.fixed_port) Samples.rejected_state) eq_refl).
  - split; [reflexivity|].
    exact (proj2 (calls_keep_tunnel_spec Samples.rejected_child
                    Samples.ready_9000 Cases.closed_9000) eq_refl).
Defined.

Lemma reconnect_abandons_old_witness :
  subprocess (self (Samples.tracking Samples.mortal)) = Some Samples.mortal /\
  final_state (connect Cases.second_child (Samples.tracking Samples.mortal))
  = Some Cases.reconnected /\
  (exists newer, untracked Cases.reconnected
                 = (newer ++ Samples.mortal
                      :: untracked (Samples.tracking Samples.mortal))%list) /\
  running Samples.mortal = true.
Proof.
  split; [reflexivity|]. split; [reflexivity|]. split; [|reflexivity].
  exact (proj1 (reconnect_abandons_old Cases.second_child
                  (Samples.tracking Samples.mortal) Samples.mortal
                  Cases.reconnected eq_refl eq_refl)).
Defined.

Lemma connect_then_close_witness :
  connect (with_lines [(Samples.newline, None); (Samples.handshake_9000, None)]
                      Samples.forwarding)
          (fresh Samples.fixed_port)
  = Returns Samples.ready_9000 /\
  exists st2 p,
    close Samples.ready_9000 = Returns st2 /\
    subprocess (self st2) = None /\
    untracked st2 = p :: released (fresh Samples.fixed_port) /\
    pid p = 4242%nat /\ running p = false /\
    In (Kill 4242) (events st2) /\
    local_port (self st2) = local_port (self Samples.ready_9000).
Proof.
  split; [reflexivity|].
  exact (connect_then_close
           (with_lines [(Samples.newline, None); (Samples.handshake_9000, None)]
                       Samples.forwarding)
           (fresh Samples.fixed_port) Samples.ready_9000 eq_refl).
Defined.

Lemma close_after_failed_connect_witness :
  connect Samples.rejected_child (fresh Samples.fixed_port)
  = Raises (PortForwardingError (UnexpectedOutput "error: unable to listen on port"))
           Samples.rejected_state /\
  subprocess (self Samples.rejected_state) = None /\
  (exists p, untracked Samples.rejected_state = p :: released (fresh Samples.fixed_port) /\
             pid p = prog_pid Samples.rejected_child /\ running p = false) /\
  In (Kill (prog_pid Samples.rejected_child)) (events Samples.rejected_state) /\
  close Samples.rejected_state = Returns Samples.rejected_state.
Proof.
  split; [reflexivity|].
  exact (close_after_failed_connect Samples.rejected_child
           (fresh Samples.fixed_port) _ Samples.rejected_state eq_refl).
Defined.

Lemma bind_address_never_empty_witness :
  reachable Samples.fixed_port Cases.closed_9000 /\
  local_address (self Cases.closed_9000) = "127.0.0.1" /\
  exists mapping,
    cmd Samples.fixed_port
    = [ "kubectl"; "--context"; "gke_test"; "--namespace"; "psm";
        "port-forward"; "--address"; "127.0.0.1"; "pod/psm-grpc-server";
        mapping ].
Proof.
  assert (Hr : reachable Samples.fixed_port Cases.closed_9000).
  { apply (reach_close _ Samples.ready_9000); [|reflexivity].
    apply (reach_connect _
             (with_lines [(Samples.newline, None); (Samples.handshake_9000, None)]
                         Samples.forwarding)
             (fresh Samples.fixed_port)); [apply reach_fresh|reflexivity]. }
  split; [exact Hr|].
  destruct (bind_address_never_empty "gke_test" "psm" "pod/psm-grpc-server"
              8080 (Some 9000) None Cases.closed_9000 Hr)
    as (_ & _ & Ha & Hc & _).
  split; [exact Ha|].
  apply (Hc 4242%nat). left. reflexivity.
Defined.

Lemma fixed_handshake_resolves_to_same_port_witness :
  local_port (self (fresh Samples.fixed_port)) = Some 9000 /\
  0 < 9000 /\
  is_Some (re_of_text (local_address (self (fresh Samples.fixed_port)))) /\
  forallb blank_alive [(Samples.newline, None)] = true /\
  strip Samples.handshake_9000 = local_port_expected (self (fresh Samples.fixed_port)) /\
  exists st1 st2,
    connect (with_lines [(Samples.newline, None); (Samples.handshake_9000, None)]
                        Samples.forwarding)
            (fresh Samples.fixed_port) = Returns st1 /\
    connect (with_lines [(Samples.newline, None); (Samples.handshake_9000, None)]
                        Samples.forwarding)
            (port_to None (fresh Samples.fixed_port)) = Returns st2 /\
    local_port (self st1) = Some 9000 /\
    local_port (self st2) = Some 9000.
Proof.
  assert (Hp : 0 < 9000) by reflexivity.
  assert (Ha : is_Some (re_of_text (local_address (self (fresh Samples.fixed_port)))))
    by (eexists; reflexivity).
  split; [reflexivity|]. split; [exact Hp|]. split; [exact Ha|].
  split; [reflexivity|]. split; [reflexivity|].
  exact (fixed_handshake_resolves_to_same_port Samples.forwarding
           (fresh Samples.fixed_port) 9000 [(Samples.newline, None)]
           Samples.handshake_9000 None [] eq_refl Hp Ha eq_refl eq_refl).
Defined.

Lemma connect_accepts_handshake_line_witness :
  truthy (local_port (self (fresh Samples.any_port))) = false /\
  is_Some (re_of_text (local_address (self (fresh Samples.any_port)))) /\
  all_digits "54321" = true /\
  exists st',
    connect (with_lines ([] ++ (Samples.handshake_54321, None) :: []) Samples.forwarding)
            (fresh Samples.any_port) = Returns st' /\
    local_port (self st') = Some (int "54321") /\
    tracked st' = true.
Proof.
  assert (Ha : is_Some (re_of_text (local_address (self (fresh Samples.any_port)))))
    by (eexists; reflexivity).
  assert (Hne : "54321" <> "") by discriminate.
  split; [reflexivity|]. split; [exact Ha|]. split; [reflexivity|].
  exact (connect_accepts_handshake_line Samples.forwarding (fresh Samples.any_port)
           [] Samples.handshake_54321 None [] "54321"
           eq_refl Ha eq_refl Hne eq_refl eq_refl).
Defined.

Lemma selector_injective_witness :
  forallb Selector.plain_label Cases.labels = true /\
  Selector.label_dict_to_selector Cases.labels
  = "app==psm-grpc-server,deployment_id==psm-1" /\
  Selector.label_dict_to_selector Cases.relabelled
  = Selector.label_dict_to_selector Cases.labels /\
  Cases.relabelled = Cases.labels.
Proof.
  split; [reflexivity|]. split; [reflexivity|]. split; [reflexivity|].
  exact (selector_injective Cases.relabelled Cases.labels eq_refl eq_refl eq_refl).
Defined.

Lemma get_service_neg_after_check_witness :
  get_service Cases.ns_with_service "psm-grpc-server"
  = Ok (AService Cases.service_with_neg) /\
  _check_service_neg_annotation (AService Cases.service_with_neg) = Ok true /\
  ServiceNeg.get_service_neg Cases.json_loads Cases.ns_with_service
    "psm-grpc-server" 8080
  = ServiceNeg.Got (ServiceNeg.JString "k8s1-neg",
                    ServiceNeg.JArray [ServiceNeg.JString "us-central1-a"]).
Proof.
  split; [reflexivity|]. split; [reflexivity|].
  destruct (get_service_neg_after_check Cases.json_loads Cases.ns_with_service
              "psm-grpc-server" 8080 Cases.service_with_neg eq_refl)
    as (md & m & text & Hmd & Ha & Hm & H).
  injection Hmd as <-. injection Ha as <-.
  rewrite lookup_singleton_eq in Hm. injection Hm as <-.
  rewrite H. reflexivity.
Defined.

Lemma get_service_neg_read_failure_witness :
  read_namespaced_service (core (api Samples.ns_404)) "gone" (name Samples.ns_404)
  = Raise (ApiException (Some 404)) /\
  ServiceNeg.get_service_neg Cases.json_loads Samples.ns_404 "gone" 8080
  = ServiceNeg.Fails (ServiceNeg.Base AttributeError).
Proof.
  split; [reflexivity|].
  exact (proj1 (get_service_neg_read_failure Cases.json_loads Samples.ns_404
                  "gone" 8080 (ApiException (Some 404)) eq_refl) eq_refl).
Defined.

Lemma first_manager_built :
  ApiClients.__init__ Cases.kubeconfig Cases.host "gke_test" ApiClients.empty_world
  = Some (Cases.first_manager, Cases.first_world).
Proof.
  unfold ApiClients.__init__, ApiClients._cached_api_client_for_context.
  cbn [ApiClients.cache ApiClients.empty_world]. rewrite lookup_empty.
  rewrite decide_True by (unfold Cases.kubeconfig; set_solver).
  reflexivity.
Qed.

Lemma second_manager_built :
  ApiClients.__init__ Cases.kubeconfig Cases.host "gke_alt" Cases.first_world
  = Some (Cases.second_manager, Cases.second_world).
Proof.
  unfold ApiClients.__init__, ApiClients._cached_api_client_for_context.
  cbn [ApiClients.cache Cases.first_world].
  rewrite lookup_singleton_ne by discriminate.
  rewrite decide_True by (unfold Cases.kubeconfig; set_solver).
  reflexivity.
Qed.

Lemma managers_share_client_witness :
  ApiClients.__init__ Cases.kubeconfig Cases.host "gke_test" ApiClients.empty_world
  = Some (Cases.first_manager, Cases.first_world) /\
  ApiClients.__init__ Cases.kubeconfig Cases.host "gke_test" Cases.first_world
  = Some (Cases.first_manager, Cases.first_world).
Proof.
  split; [exact first_manager_built|].
  exact (managers_share_client Cases.kubeconfig Cases.host "gke_test"
           ApiClients.empty_world Cases.first_manager Cases.first_world
           first_manager_built).
Defined.

Lemma close_reaches_every_manager_witness :
  ApiClients.__init__ Cases.kubeconfig Cases.host "gke_test" ApiClients.empty_world
  = Some (Cases.first_manager, Cases.first_world) /\
  ApiClients.__init__ Cases.kubeconfig Cases.host "gke_test"
    (ApiClients.close Cases.first_manager Cases.first_world)
  = Some (Cases.first_manager, ApiClients.close Cases.first_manager Cases.first_world) /\
  ApiClients.client Cases.first_manager
  ∈ ApiClients.closed (ApiClients.close Cases.first_manager Cases.first_world).
Proof.
  assert (H : ApiClients.__init__ Cases.kubeconfig Cases.host "gke_test"
                (ApiClients.close Cases.first_manager Cases.first_world)
              = Some (Cases.first_manager,
                      ApiClients.close Cases.first_manager Cases.first_world)).
  { unfold ApiClients.__init__, ApiClients._cached_api_client_for_context.
    cbn [ApiClients.cache ApiClients.close Cases.first_world].
    rewrite lookup_singleton_eq. reflexivity. }
  split; [exact first_manager_built|]. split; [exact H|].
  exact (proj2 (close_reaches_every_manager Cases.kubeconfig Cases.host "gke_test"
                  ApiClients.empty_world Cases.first_manager Cases.first_world
                  first_manager_built) Cases.first_manager _ H).
Defined.

Lemma contexts_do_not_share_witness :
  ApiClients.consistent ApiClients.empty_world /\
  "gke_test" <> "gke_alt" /\
  ApiClients.__init__ Cases.kubeconfig Cases.host "gke_test" ApiClients.empty_world
  = Some (Cases.first_manager, Cases.first_world) /\
  ApiClients.__init__ Cases.kubeconfig Cases.host "gke_alt" Cases.first_world
  = Some (Cases.second_manager, Cases.second_world) /\
  ApiClients.client Cases.first_manager <> ApiClients.client Cases.second_manager /\
  ApiClients.consistent Cases.second_world.
Proof.
  assert (Hne : "gke_test" <> "gke_alt") by discriminate.
  split; [exact empty_world_consistent|]. split; [exact Hne|].
  split; [exact first_manager_built|]. split; [exact second_manager_built|].
  destruct (contexts_do_not_share Cases.kubeconfig Cases.host "gke_test" "gke_alt"
              ApiClients.empty_world Cases.first_manager Cases.first_world
              Cases.second_manager Cases.second_world
              empty_world_consistent Hne first_manager_built second_manager_built)
    as (Hd & _ & Hc).
  split; [exact Hd|exact Hc].
Defined.

Lemma replicas_available_monotone_witness :
  2 <= 3 /\
  _replicas_available (Samples.deployment_reporting None (Some 4)) 3 = Ok true /\
  _replicas_available (Samples.deployment_reporting None (Some 4)) 2 = Ok true.
Proof.
  assert (Hle : 2 <= 3) by discriminate.
  split; [exact Hle|]. split; [reflexivity|].
  exact (proj1 (replicas_available_monotone
                  (Samples.deployment_reporting None (Some 4)) 3 2 Hle) eq_refl).
Defined.
